(** * gocat: a model of the chunked range downloader of [main.go]

    The Go program [gocat] reads a list of URLs and, for each of them,
    probes the resource with a HEAD request ([checkHeaders]), then fetches
    it in fixed-size byte ranges ([downloadAndWrite]), each range through a
    retry loop ([downloadChunkWithRetry] around [downloadChunk]), and writes
    every fetched chunk to standard output.

    Modelling choices.
    - Go's [int] and [int64] values are [Z] with the two's complement
      wrap-around written out by [i64].
    - The network and the output stream are an environment [Env] of
      oracles: the n-th GET request of the run returns [client_do env n url
      range_header], the n-th write to the sink fails iff [write_err env n]
      says so.  The two global flags [MaxRetry] and [BatchSizeInMB] are part
      of the environment as well.
    - The observable state [St] is the list of GET requests issued (URL and
      [Range] header, in order) and the list of the byte slices written to
      the sink (in order).  HEAD requests, the messages on stderr and
      [time.Sleep] are not observable in this model.
    - The unbounded [for] loop of [downloadAndWrite] runs on fuel; running
      out of fuel is the outcome [OutOfFuel], distinct from the program's
      own outcomes (success, error, panic). *)

From Stdlib Require Import ZArith List String Ascii Bool Lia.
Import ListNotations.
Open Scope Z_scope.

(** ** Machine integers *)

(** Two's complement reading of a 64-bit pattern: Go's [int64] arithmetic. *)
Definition i64 (z : Z) : Z :=
  let m := z mod 2 ^ 64 in
  if m <? 2 ^ 63 then m else m - 2 ^ 64.

Definition MinInt64 : Z := - 2 ^ 63.
Definition MaxInt64 : Z := 2 ^ 63 - 1.

Definition in_int64 (z : Z) : Prop := MinInt64 <= z <= MaxInt64.

(** ** Errors and results *)

(** [strconv.NumError]'s [Err] field. *)
Inductive NumErrKind := ErrSyntax | ErrRange.

(** The Go [error] values the program can return. *)
Inductive GoError :=
| NetError (id : nat)                         (* transport / body read errors *)
| ErrAcceptRanges                             (* errors.New("no supported Accept-Ranges found") *)
| NumError (func : string) (num : string) (kind : NumErrKind)  (* *strconv.NumError *)
| WriteError (id : nat)                       (* error of w.Write *)
| HttpError (msg : string) (value : string).  (* net/http's rejection of a response header *)

(** A Go pair [(value, error)] where the error is non-nil or the value is
    meaningful. *)
Inductive goresult (A : Type) := GOk (a : A) | GErr (e : GoError).
Arguments GOk {A} a.
Arguments GErr {A} e.

(** ** strconv.ParseInt(s, 10, 64) *)

Definition is_digit (c : ascii) : bool :=
  (48 <=? Z.of_nat (nat_of_ascii c)) && (Z.of_nat (nat_of_ascii c) <=? 57).

Definition digit_val (c : ascii) : Z := Z.of_nat (nat_of_ascii c) - 48.

(** [maxUint64 / 10 + 1] and [maxUint64], as in [strconv.ParseUint]. *)
Definition uint_cutoff : Z := (2 ^ 64 - 1) / 10 + 1.
Definition uint_max : Z := 2 ^ 64 - 1.

(** The digit loop of [ParseUint] in base 10: any byte that is not a
    decimal digit is a syntax error (base 10 is explicit, so [_] is not
    accepted), an overflow is a range error reported at once. *)
Fixpoint parse_uint_loop (s : string) (n : Z) : goresult Z :=
  match s with
  | EmptyString => GOk n
  | String c r =>
      if negb (is_digit c) then GErr (NumError "ParseUint" "" ErrSyntax)
      else if uint_cutoff <=? n then GErr (NumError "ParseUint" "" ErrRange)
      else
        let n1 := n * 10 + digit_val c in
        if uint_max <? n1 then GErr (NumError "ParseUint" "" ErrRange)
        else parse_uint_loop r n1
  end.

Definition ParseUint (s : string) : goresult Z :=
  match s with
  | EmptyString => GErr (NumError "ParseUint" "" ErrSyntax)
  | _ => parse_uint_loop s 0
  end.

(** [ParseInt]: optional sign, then [ParseUint]; the error, if any, is
    re-labelled with [ParseInt] and the whole input; then the int64 range
    check with [cutoff = 1 << 63]. *)
Definition ParseInt (s0 : string) : goresult Z :=
  match s0 with
  | EmptyString => GErr (NumError "ParseInt" s0 ErrSyntax)
  | String c r =>
      let '(neg, s) :=
        if Ascii.eqb c "+"%char then (false, r)
        else if Ascii.eqb c "-"%char then (true, r)
        else (false, s0) in
      match ParseUint s with
      | GErr (NumError _ _ k) => GErr (NumError "ParseInt" s0 k)
      | GErr e => GErr e
      | GOk un =>
          if negb neg && (2 ^ 63 <=? un) then GErr (NumError "ParseInt" s0 ErrRange)
          else if neg && (2 ^ 63 <? un) then GErr (NumError "ParseInt" s0 ErrRange)
          else GOk (if neg then - un else un)
      end
  end.

(** ** fmt's [%v] on an [int64]: decimal, with a leading [-] if negative *)

Definition digit_char (d : Z) : ascii := ascii_of_nat (48 + Z.to_nat d).

Fixpoint fmt_digits (fuel : nat) (n : Z) (acc : string) : string :=
  match fuel with
  | O => acc
  | S f =>
      let acc' := String (digit_char (n mod 10)) acc in
      if n <? 10 then acc' else fmt_digits f (n / 10) acc'
  end.

(** Twenty digits cover every [int64] magnitude (at most [2^63]). *)
Definition format_int (z : Z) : string :=
  if z <? 0 then String "-" (fmt_digits 20 (- z) "") else fmt_digits 20 z "".

(** ** HTTP messages *)

(** [http.Header] after canonicalisation: [Get] returns the first value of
    the key, or [""] when the key is absent. *)
Definition Header := list (string * string).

Definition header_get (h : Header) (k : string) : string :=
  match find (fun p => String.eqb (fst p) k) h with
  | Some (_, v) => v
  | None => ""%string
  end.

Record HeadResp := mkHeadResp { head_status : Z; head_header : Header }.

(** ** net/http's reading of a HEAD response

    Before [http.Head] returns a response, net/http's [readTransfer] checks
    its [Content-Length] header: [fixLength] refuses several values that
    differ and collapses equal ones into one, then, the request being a
    HEAD, [parseContentLength] parses the value and makes [http.Head] fail
    when it is not a size.  Header values are as [textproto] reads them,
    blanks at both ends removed, so [textproto.TrimString] leaves them
    unchanged. *)






(** A GET response: its status, and what [io.ReadAll] of its body returns:
    the bytes read, and the read error if the read failed part way. *)
Record GetResp := mkGetResp {
  get_status : Z;
  get_body : list Byte.byte;
  get_body_err : option GoError }.

(** ** Environment and observable state *)

Record Env := mkEnv {
  MaxRetry : Z;
  BatchSizeInMB : Z;
  (** error of parsing the URL (shared by [http.Head] and [http.NewRequest]) *)
  url_err : string -> option GoError;
  (** [http.Head] on a well-formed URL: a response it returns has passed
      net/http's checks, see [net_http_head] *)
  head : string -> goresult HeadResp;
  (** [client.Do] for the n-th GET request of the run, with its URL and
      [Range] header *)
  client_do : nat -> string -> string -> goresult GetResp;
  (** error of the n-th write to the output stream *)
  write_err : nat -> option GoError }.

Record St := mkSt {
  gets : list (string * string);
  writes : list (list Byte.byte) }.

(** ** A state and error monad *)

Inductive Res (A : Type) := Ret (a : A) | Err (e : GoError) | Panic | OutOfFuel.
Arguments Ret {A} a.
Arguments Err {A} e.
Arguments Panic {A}.
Arguments OutOfFuel {A}.

Definition M (A : Type) := St -> Res A * St.

Definition ret {A} (a : A) : M A := fun s => (Ret a, s).
Definition throw {A} (e : GoError) : M A := fun s => (Err e, s).
Definition panic {A} : M A := fun s => (Panic, s).
Definition out_of_fuel {A} : M A := fun s => (OutOfFuel, s).

Definition bind {A B} (m : M A) (k : A -> M B) : M B :=
  fun s =>
    match m s with
    | (Ret a, s') => k a s'
    | (Err e, s') => (Err e, s')
    | (Panic, s') => (Panic, s')
    | (OutOfFuel, s') => (OutOfFuel, s')
    end.

Notation "x <- m ;; k" := (bind m (fun x => k))
  (at level 61, m at next level, right associativity).

(** ** The program *)

Section Program.

Variable env : Env.

(** [client.Do(req)]: issues the GET request and records it. *)
Definition http_get (url hdr : string) : M (goresult GetResp) :=
  fun s =>
    (Ret (client_do env (List.length (gets s)) url hdr),
     mkSt (gets s ++ [(url, hdr)]) (writes s)).

(** [w.Write(b)] on the output stream. *)
Definition write_out (b : list Byte.byte) : M unit :=
  fun s =>
    match write_err env (List.length (writes s)) with
    | Some e => (Err e, s)
    | None => (Ret tt, mkSt (gets s) (writes s ++ [b]))
    end.

(** [checkHeaders]: HEAD probe, Accept-Ranges check, Content-Length parse. *)
Definition checkHeaders (url : string) : goresult Z :=
  match url_err env url with
  | Some e => GErr e
  | None =>
      match head env url with
      | GErr e => GErr e
      | GOk resp =>
          let acceptRanges := header_get (head_header resp) "Accept-Ranges" in
          if negb (String.eqb acceptRanges "bytes") then GErr ErrAcceptRanges
          else
            let contentLenStr := header_get (head_header resp) "Content-Length" in
            match ParseInt contentLenStr with
            | GErr e => GErr e
            | GOk contentLen => GOk contentLen
            end
      end
  end.

(** [fmt.Sprintf("bytes=%v-%v", offsetFrom, offsetTo)] *)
Definition range_str (offsetFrom offsetTo : Z) : string :=
  ("bytes=" ++ format_int offsetFrom ++ "-" ++ format_int offsetTo)%string.

(** [downloadChunk]: the pair [(respBytes, err)]; every error path returns
    a nil slice. *)
Definition downloadChunk (url : string) (offsetFrom offsetTo : Z)
  : M (list Byte.byte * option GoError) :=
  match url_err env url with
  | Some e => ret ([], Some e)
  | None =>
      let rangeStr := range_str offsetFrom offsetTo in
      r <- http_get url rangeStr ;;
      match r with
      | GErr e => ret ([], Some e)
      | GOk resp =>
          match get_body_err resp with
          | Some e => ret ([], Some e)
          | None => ret (get_body resp, None)
          end
      end
  end.

(** The body of [for i := 0; i < MaxRetry; i++ { ... }], [k] being the
    number of iterations left; [acc] holds the named results. *)
Fixpoint retry_loop (k : nat) (url : string) (offsetFrom offsetTo : Z)
  (acc : list Byte.byte * option GoError) : M (list Byte.byte * option GoError) :=
  match k with
  | O => ret acc
  | S k' =>
      r <- downloadChunk url offsetFrom offsetTo ;;
      match snd r with
      | None => ret r
      | Some _ => retry_loop k' url offsetFrom offsetTo r
      end
  end.

(** Named results [resp, err] start as [nil, nil]. *)
Definition downloadChunkWithRetry (url : string) (offsetFrom offsetTo : Z)
  : M (list Byte.byte * option GoError) :=
  retry_loop (Z.to_nat (MaxRetry env)) url offsetFrom offsetTo ([], None).

(** [batchSize := int64(BatchSizeInMB) << 20] *)
Definition batch_size : Z := i64 (Z.shiftl (BatchSizeInMB env) 20).

End Program.

(** [numChunks := contentLen / batchSize; if contentLen%batchSize > 0 {
    numChunks++ }]; [None] is Go's run-time panic "integer divide by zero". *)
Definition num_chunks (contentLen batchSize : Z) : option Z :=
  if batchSize =? 0 then None
  else
    let q := i64 (Z.quot contentLen batchSize) in
    Some (if Z.rem contentLen batchSize >? 0 then i64 (q + 1) else q).

(** The computation of [offsetTo] in the loop of [downloadAndWrite]. *)
Definition next_offset_to (contentLen batchSize offset : Z) : Z :=
  let offsetTo := i64 (offset + batchSize) in
  if offsetTo >? contentLen then contentLen else offsetTo.

(** The chunk plan: the half-open ranges [[offset, offsetTo)] the loop of
    [downloadAndWrite] visits, in order; [None] when the fuel runs out. *)
Fixpoint chunk_ranges (fuel : nat) (contentLen batchSize offset : Z)
  : option (list (Z * Z)) :=
  match fuel with
  | O => None
  | S f =>
      if offset <? contentLen then
        let offsetTo := next_offset_to contentLen batchSize offset in
        option_map (cons (offset, offsetTo)) (chunk_ranges f contentLen batchSize offsetTo)
      else Some []
  end.

Section Driver.

Variable env : Env.

(** The loop [for offset := int64(0); offset < contentLen; { ... }]. *)
Fixpoint dw_loop (fuel : nat) (url : string) (contentLen batchSize offset : Z) : M unit :=
  match fuel with
  | O => out_of_fuel
  | S f =>
      if offset <? contentLen then
        let offsetTo := next_offset_to contentLen batchSize offset in
        r <- downloadChunkWithRetry env url offset (i64 (offsetTo - 1)) ;;
        match snd r with
        | Some e => throw e
        | None =>
            _ <- write_out env (fst r) ;;
            dw_loop f url contentLen batchSize offsetTo
        end
      else ret tt
  end.

(** [downloadAndWrite(url, os.Stdout)] *)
Definition downloadAndWrite (fuel : nat) (url : string) : M unit :=
  match checkHeaders env url with
  | GErr e => throw e
  | GOk contentLen =>
      let batchSize := batch_size env in
      match num_chunks contentLen batchSize with
      | None => panic
      | Some _numChunks => dw_loop fuel url contentLen batchSize 0
      end
  end.

(** The loop of [main] over the resolved list: the first error is fatal
    ([log.Fatal]) and stops the run. *)
Fixpoint main_loop (fuel : nat) (files : list string) : M unit :=
  match files with
  | [] => ret tt
  | file :: rest => _ <- downloadAndWrite fuel file ;; main_loop fuel rest
  end.

End Driver.

(** The pair [downloadChunk] returns when its GET request is the n-th of
    the run: the error of [client.Do], else the error of [io.ReadAll] (the
    bytes read so far are dropped), else the body. *)
Definition chunk_outcome (env : Env) (n : nat) (url hdr : string)
  : list Byte.byte * option GoError :=
  match client_do env n url hdr with
  | GErr e => ([], Some e)
  | GOk resp =>
      match get_body_err resp with
      | Some e => ([], Some e)
      | None => (get_body resp, None)
      end
  end.

(** ** The chunk plan as the specification words it *)

(** Ranges that start at [a], each non-empty and starting where the previous
    one ends, the last one ending at [n]: contiguous, strictly increasing,
    non-overlapping, covering exactly [[a, n)]. *)
Fixpoint contiguous_from (a n : Z) (rs : list (Z * Z)) : Prop :=
  match rs with
  | [] => a = n
  | (f, t) :: r => f = a /\ f < t /\ contiguous_from t n r
  end.

(** Every range but the last has length exactly [b]. *)
Fixpoint full_but_last (b : Z) (rs : list (Z * Z)) : Prop :=
  match rs with
  | [] => True
  | (f, t) :: r => (r <> [] -> t - f = b) /\ full_but_last b r
  end.

Definition chunk_plan_ok (total batch : Z) (rs : list (Z * Z)) : Prop :=
  contiguous_from 0 total rs /\
  Forall (fun p => snd p - fst p <= batch) rs /\
  full_but_last batch rs /\
  Z.of_nat (List.length rs) = (total + batch - 1) / batch /\
  (rs = [] <-> total = 0).

(** The offsets the loop of [downloadAndWrite] reaches: it starts at [0]
    and moves from [offset] to [offsetTo] while [offset < contentLen]. *)
Inductive reached (contentLen batchSize : Z) : Z -> Prop :=
| reached_start : reached contentLen batchSize 0
| reached_next (o : Z) :
    reached contentLen batchSize o -> o < contentLen ->
    reached contentLen batchSize (next_offset_to contentLen batchSize o).

(** The bytes [[f, t)] of a resource body. *)
Definition slice (body : list Byte.byte) (f t : Z) : list Byte.byte :=
  firstn (Z.to_nat (t - f)) (skipn (Z.to_nat f) body).

(** The chunk plan with as much fuel as the specification's chunk count
    asks for (empty if the loop needs more). *)
Definition chunk_plan (total batch : Z) : list (Z * Z) :=
  match chunk_ranges (S (Z.to_nat ((total + batch - 1) / batch))) total batch 0 with
  | Some rs => rs
  | None => []
  end.

(** ** Concrete environments *)

Definition url_a : string := "http://a/f1".
Definition st0 : St := mkSt [] [].

(** Every GET fails with a transport error. *)
Definition env_always_fail : Env :=
  mkEnv 3 16 (fun _ => None) (fun _ => GErr (NetError 0))
    (fun n _ _ => GErr (NetError n)) (fun _ => None).

(** The first two GETs of the run fail, later ones return one byte. *)
Definition env_flaky : Env :=
  mkEnv 3 16 (fun _ => None) (fun _ => GErr (NetError 0))
    (fun n _ _ => if (n <? 2)%nat then GErr (NetError n)
                  else GOk (mkGetResp 206 [Byte.x41] None))
    (fun _ => None).

(** A probe answer with the given headers, every GET answering [resp]. *)
Definition env_probe (maxRetry batchMB : Z) (h : Header) (resp : GetResp) : Env :=
  mkEnv maxRetry batchMB (fun _ => None) (fun _ => GOk (mkHeadResp 200 h))
    (fun _ _ _ => GOk resp) (fun _ => None).

(** A server that answers every range request with [500] and an error page. *)
Definition env_500 : Env :=
  env_probe 100 16 [("Accept-Ranges", "bytes")%string; ("Content-Length", "10")%string]
    (mkGetResp 500 [Byte.x45; Byte.x52; Byte.x52] None).

Definition resp_empty : GetResp := mkGetResp 206 [] None.

(** A probe answer without [Accept-Ranges]. *)
Definition env_no_ranges : Env :=
  env_probe 100 16 [("Content-Length", "10")%string] resp_empty.




(** [-b 0] with a well-formed probe answer. *)
Definition env_batch_zero : Env :=
  env_probe 100 0 [("Accept-Ranges", "bytes")%string; ("Content-Length", "10")%string]
    resp_empty.

(** [-b -1] with an empty resource. *)
Definition env_batch_negative : Env :=
  env_probe 100 (-1) [("Accept-Ranges", "bytes")%string; ("Content-Length", "0")%string]
    resp_empty.

(** [-m 1 -b 1], a resource of 1500000 bytes, every GET answering one byte. *)
Definition env_two : Env :=
  env_probe 1 1 [("Accept-Ranges", "bytes")%string; ("Content-Length", "1500000")%string]
    (mkGetResp 206 [Byte.x41] None).

(** [-m 0], a one-byte resource, every GET answering that byte. *)
Definition env_no_retry : Env :=
  env_probe 0 16 [("Accept-Ranges", "bytes")%string; ("Content-Length", "1")%string]
    (mkGetResp 206 [Byte.x41] None).

(** [-m 1 -b 1], one-byte resources: the probe reports one byte and the
    range request [bytes=0-0] is answered with that byte, any other range
    with [416] and no body. *)
Definition env_one_byte : Env :=
  mkEnv 1 1 (fun _ => None)
    (fun _ => GOk (mkHeadResp 200 [("Accept-Ranges", "bytes")%string;
                                   ("Content-Length", "1")%string]))
    (fun _ _ hdr => if String.eqb hdr (range_str 0 0) then GOk (mkGetResp 206 [Byte.x41] None)
                    else GOk (mkGetResp 416 [] None))
    (fun _ => None).

(** The resource [url_b] answers its probe without [Accept-Ranges]; every
    other one is [env_one_byte]'s one-byte resource. *)
Definition url_b : string := "http://a/f2".

Definition env_mixed : Env :=
  mkEnv 1 1 (fun _ => None)
    (fun u => if String.eqb u url_b
              then GOk (mkHeadResp 200 [("Content-Length", "1")%string])
              else head env_one_byte u)
    (client_do env_one_byte) (fun _ => None).

(** A resource of ten bytes whose probe succeeds, after which every GET
    request fails with a transport error. *)
Definition env_down : Env :=
  mkEnv 3 1 (fun _ => None)
    (fun _ => GOk (mkHeadResp 200 [("Accept-Ranges", "bytes")%string;
                                   ("Content-Length", "10")%string]))
    (fun n _ _ => GErr (NetError n)) (fun _ => None).

(** ** The list resolver: [downloadList] *)

(** [bufio.MaxScanTokenSize]: the size a default [bufio.Scanner]'s buffer
    grows to; a token that does not fit stops the scan with
    [bufio.ErrTooLong]. *)
Definition MaxScanTokenSize : nat := 64 * 1024.

(** The pieces of a byte string between its ['\n'] bytes: [k] newlines give
    [k + 1] pieces, the last one being what follows the last newline. *)
Fixpoint split_nl (l : list ascii) : list (list ascii) :=
  match l with
  | [] => [[]]
  | c :: r =>
      if Ascii.eqb c "010"%char then [] :: split_nl r
      else match split_nl r with
           | [] => [[c]]
           | x :: xs => (c :: x) :: xs
           end
  end.

(** [bufio]'s [dropCR]: a trailing ['\r'] is removed. *)
Definition dropCR (l : list ascii) : list ascii :=
  match rev l with
  | c :: r => if Ascii.eqb c "013"%char then rev r else l
  | [] => l
  end.

(** The tokens [scanner.Scan] returns with [bufio.ScanLines] on a body the
    reader delivers completely.  A line followed by ['\n'] is a token when
    it fits in the buffer with its newline; the text after the last newline
    is a token when it is not empty and fits in [final_limit] bytes.  The
    first line that does not fit ends the scan ([ErrTooLong]). *)
Fixpoint scan_pieces (final_limit : nat) (ps : list (list ascii)) : list (list ascii) :=
  match ps with
  | [] => []
  | [last] =>
      match last with
      | [] => []
      | _ => if (List.length last <=? final_limit)%nat then [dropCR last] else []
      end
  | p :: rest =>
      if (List.length p + 1 <=? MaxScanTokenSize)%nat
      then dropCR p :: scan_pieces final_limit rest
      else []
  end.

(** [for scanner.Scan() { line := scanner.Text() ... }].  Whether an
    unterminated last line of exactly [MaxScanTokenSize] bytes is a token
    depends on the body's reader: it is when the reader returns [io.EOF]
    together with its last bytes (as [net/http] does for a body with a
    [Content-Length]); otherwise the buffer is full before [io.EOF] is seen. *)
Definition scan_lines (eof_with_last_bytes : bool) (body : string) : list string :=
  map string_of_list_ascii
    (scan_pieces (if eof_with_last_bytes then MaxScanTokenSize else MaxScanTokenSize - 1)
       (split_nl (list_ascii_of_string body))).

(** The outcome of [main]: [os.Exit(1)] after [printUsage], [log.Fatal],
    a run-time panic, the fuel running out, or ["COMPLETED!"]. *)
Inductive Exit := ExitUsage | ExitFatal (e : GoError) | ExitPanic | ExitOutOfFuel | ExitCompleted.

(** [flag.Arg(i)]: the [i]-th argument left after the flags, [""] when
    there is none. *)
Definition flag_Arg (args : list string) (i : Z) : string :=
  if (i <? 0) || (Z.of_nat (List.length args) <=? i) then ""%string
  else nth (Z.to_nat i) args ""%string.

Section Main.

Variable env : Env.

(** Whether the manifest body's reader returns [io.EOF] with its last bytes. *)
Variable eof_with_last_bytes : bool.

(** [http.Get] of the manifest: its transport error or its whole body; the
    status code is not looked at.  This request is not among the range
    requests [St] records. *)
Variable manifest_get : string -> goresult string.

(** [downloadList].  Every line [scanner.Scan] returns that starts with
    ["http"] is appended, in order.  The [scanner.Err()] check in the loop
    body follows a successful [Scan], after which [Err] is [nil] for a body
    read completely ([io.EOF] is reported as [nil]); the error that ends
    the loop, [ErrTooLong] included, is never checked. *)
Definition downloadList (url : string) : goresult (list string) :=
  match manifest_get url with
  | GErr e => GErr e
  | GOk body =>
      GOk (filter (fun line => String.prefix "http" line) (scan_lines eof_with_last_bytes body))
  end.

(** [main] after [flag.Parse()]: [nOsArgs] is [len(os.Args)], [args] is
    [flag.Args()]; the values of [-m] and [-b] are [MaxRetry env] and
    [BatchSizeInMB env]. *)
Definition main (fuel : nat) (nOsArgs : nat) (args : list string) (s : St) : Exit * St :=
  if (nOsArgs <? 2)%nat then (ExitUsage, s)
  else
    let url := flag_Arg args (Z.of_nat (List.length args) - 1) in
    match downloadList url with
    | GErr e => (ExitFatal e, s)
    | GOk files =>
        match main_loop env fuel files s with
        | (Ret _, s') => (ExitCompleted, s')
        | (Err e, s') => (ExitFatal e, s')
        | (Panic, s') => (ExitPanic, s')
        | (OutOfFuel, s') => (ExitOutOfFuel, s')
        end
    end.

End Main.

(** ** Reference notions for the statements *)

(** A line feed, and a carriage return followed by a line feed. *)
Definition LF : string := String "010"%char EmptyString.
Definition CRLF : string := String "013"%char LF.

(** A manifest written line by line, each line followed by [eol]. *)
Fixpoint manifest_text (eol : string) (ls : list string) : string :=
  match ls with
  | [] => EmptyString
  | l :: r => (l ++ eol ++ manifest_text eol r)%string
  end.

(** A string of decimal digits and the number it denotes, read from the
    left starting from [m]. *)
Fixpoint all_digits (s : string) : bool :=
  match s with
  | EmptyString => true
  | String c r => is_digit c && all_digits r
  end.

Fixpoint dec_acc (m : Z) (s : string) : Z :=
  match s with
  | EmptyString => m
  | String c r => dec_acc (m * 10 + digit_val c) r
  end.

(** ** Arithmetic facts *)

Lemma i64_id (z : Z) : in_int64 z -> i64 z = z.
Proof.
  unfold in_int64, MinInt64, MaxInt64, i64; intros [Hlo Hhi].
  destruct (Z_le_gt_dec 0 z) as [Hz | Hz].
  - rewrite Z.mod_small by lia.
    destruct (Z.ltb_spec z (2 ^ 63)); lia.
  - assert (Hm : z mod 2 ^ 64 = z + 2 ^ 64).
    { symmetry; apply Z.mod_unique with (q := -1); lia. }
    rewrite Hm; destruct (Z.ltb_spec (z + 2 ^ 64) (2 ^ 63)); lia.
Qed.

(** Without overflow the next offset is [min (offset + batch) contentLen]. *)
Lemma next_offset_to_min (n b a : Z) :
  0 <= a < n -> 0 < b -> n + b <= 2 ^ 63 ->
  next_offset_to n b a = Z.min (a + b) n.
Proof.
  intros Ha Hb Hn; unfold next_offset_to.
  rewrite i64_id by (unfold in_int64, MinInt64, MaxInt64; lia).
  destruct (Z.gtb_spec (a + b) n); lia.
Qed.

Lemma ceil_step (n b a : Z) :
  0 <= a < n -> 0 < b ->
  (n - Z.min (a + b) n + b - 1) / b + 1 = (n - a + b - 1) / b.
Proof.
  intros Ha Hb.
  destruct (Z.le_ge_cases (a + b) n) as [Hle | Hge].
  - rewrite Z.min_l by lia.
    replace (n - a + b - 1) with ((n - (a + b) + b - 1) + 1 * b) by ring.
    rewrite Z.div_add by lia; reflexivity.
  - rewrite Z.min_r by lia.
    replace (n - n + b - 1) with (b - 1) by ring.
    rewrite (Z.div_small (b - 1) b) by lia.
    simpl; apply Z.div_unique with (r := n - a - 1); lia.
Qed.

Lemma contiguous_from_nonempty (a n : Z) (rs : list (Z * Z)) :
  contiguous_from a n rs -> rs <> [] -> a < n.
Proof.
  revert a; induction rs as [| [f t] r IH]; intros a H Hne; [congruence |].
  destruct H as [-> [Hlt Hr]].
  destruct r as [| p r']; simpl in Hr.
  - lia.
  - assert (t < n) by (apply (IH t Hr); discriminate). lia.
Qed.

Lemma contiguous_from_le (a n : Z) (rs : list (Z * Z)) :
  contiguous_from a n rs -> a <= n.
Proof.
  intros H; destruct rs as [| p r]; simpl in H.
  - lia.
  - assert (a < n) by (apply (contiguous_from_nonempty a n (p :: r)); [exact H | discriminate]).
    lia.
Qed.

(** The plan from any offset [a] in [[0, n]]: soundness of every run. *)
Lemma chunk_ranges_sound (n b : Z) :
  0 < b -> n + b <= 2 ^ 63 ->
  forall fuel a rs, 0 <= a <= n ->
  chunk_ranges fuel n b a = Some rs ->
  contiguous_from a n rs /\
  Forall (fun p => snd p - fst p <= b) rs /\
  full_but_last b rs /\
  Z.of_nat (List.length rs) = (n - a + b - 1) / b.
Proof.
  intros Hb Hn fuel; induction fuel as [| f IH]; intros a rs Ha Hrun; [discriminate |].
  simpl in Hrun.
  destruct (Z.ltb_spec a n) as [Hlt | Hge].
  - rewrite (next_offset_to_min n b a) in Hrun by lia.
    destruct (chunk_ranges f n b (Z.min (a + b) n)) as [rs' |] eqn:Hrest;
      [| discriminate].
    simpl in Hrun; injection Hrun as <-.
    destruct (IH (Z.min (a + b) n) rs') as (Hc & Hf & Hfb & Hlen); [lia | exact Hrest |].
    split; [| split; [| split]].
    + simpl; split; [reflexivity | split; [lia | exact Hc]].
    + constructor; [simpl; lia | exact Hf].
    + simpl; split; [| exact Hfb].
      intros Hne.
      assert (Z.min (a + b) n < n) by (apply (contiguous_from_nonempty _ n rs' Hc Hne)).
      lia.
    + simpl List.length; rewrite Nat2Z.inj_succ, Hlen.
      rewrite <- (ceil_step n b a) by lia; lia.
  - injection Hrun as <-.
    assert (a = n) by lia; subst a.
    split; [reflexivity | split; [constructor | split; [exact I |]]].
    simpl; replace (n - n + b - 1) with (b - 1) by ring.
    rewrite Z.div_small by lia; reflexivity.
Qed.

(** The plan from any offset [a] in [[0, n]]: the loop terminates once
    the fuel exceeds the number of chunks left. *)
Lemma chunk_ranges_complete (n b : Z) :
  0 < b -> n + b <= 2 ^ 63 ->
  forall fuel a, 0 <= a <= n ->
  (n - a + b - 1) / b < Z.of_nat fuel ->
  exists rs, chunk_ranges fuel n b a = Some rs.
Proof.
  intros Hb Hn fuel; induction fuel as [| f IH]; intros a Ha Hfuel.
  - assert (0 <= (n - a + b - 1) / b) by (apply Z.div_pos; lia). lia.
  - simpl.
    destruct (Z.ltb_spec a n) as [Hlt | Hge].
    + rewrite (next_offset_to_min n b a) by lia.
      destruct (IH (Z.min (a + b) n)) as [rs' Hrs']; [lia | |].
      * pose proof (ceil_step n b a ltac:(lia) Hb). lia.
      * rewrite Hrs'; simpl; eauto.
    + eauto.
Qed.

(** ** C1: the chunk plan *)

(** C1 (as stated): for every [total_size >= 0] and [batch_size > 0] the plan
    is contiguous, covers [[0, total_size)], has chunks of length at most
    [batch_size], all but the last exactly [batch_size], and
    [ceil(total_size / batch_size)] of them.  It fails: with
    [BatchSizeInMB = 2^42 + 1] (so [batch_size = 2^62 + 2^20]) and a
    resource of [2^62 + 3 * 2^20] bytes, [offset + batchSize] overflows
    [int64] at the second chunk, and the loop visits five ranges, among them
    [[2^62 + 2^20, -2^63 + 2^21)]. *)
Lemma chunk_plan_overflow_counterexample :
  i64 (Z.shiftl (2 ^ 42 + 1) 20) = 2 ^ 62 + 2 ^ 20 /\
  chunk_ranges 6 (2 ^ 62 + 3 * 2 ^ 20) (2 ^ 62 + 2 ^ 20) 0 =
    Some [(0, 2 ^ 62 + 2 ^ 20);
          (2 ^ 62 + 2 ^ 20, - 2 ^ 63 + 2 ^ 21);
          (- 2 ^ 63 + 2 ^ 21, - 2 ^ 62 + 3 * 2 ^ 20);
          (- 2 ^ 62 + 3 * 2 ^ 20, 4 * 2 ^ 20);
          (4 * 2 ^ 20, 2 ^ 62 + 3 * 2 ^ 20)] /\
  ~ (forall total batch fuel rs,
       0 <= total -> 0 < batch ->
       chunk_ranges fuel total batch 0 = Some rs ->
       chunk_plan_ok total batch rs).
Proof.
  split; [vm_compute; reflexivity |].
  split; [vm_compute; reflexivity |].
  intros H.
  assert (Hrun : chunk_ranges 6 (2 ^ 62 + 3 * 2 ^ 20) (2 ^ 62 + 2 ^ 20) 0 =
    Some [(0, 2 ^ 62 + 2 ^ 20);
          (2 ^ 62 + 2 ^ 20, - 2 ^ 63 + 2 ^ 21);
          (- 2 ^ 63 + 2 ^ 21, - 2 ^ 62 + 3 * 2 ^ 20);
          (- 2 ^ 62 + 3 * 2 ^ 20, 4 * 2 ^ 20);
          (4 * 2 ^ 20, 2 ^ 62 + 3 * 2 ^ 20)]) by (vm_compute; reflexivity).
  destruct (H (2 ^ 62 + 3 * 2 ^ 20) (2 ^ 62 + 2 ^ 20) 6%nat _ ltac:(lia) ltac:(lia) Hrun)
    as [Hc _].
  simpl in Hc. lia.
Qed.

(** C1 (amended): for every [total_size >= 0] and [batch_size > 0] with
    [total_size + batch_size <= 2^63] (no [int64] overflow of
    [offset + batchSize]), the loop of [downloadAndWrite] terminates, and
    the ranges it visits are contiguous, strictly increasing,
    non-overlapping, cover exactly [[0, total_size)], each of length at most
    [batch_size] and all but the last of length exactly [batch_size]; there
    are [ceil(total_size / batch_size)] of them, none exactly when
    [total_size = 0]. *)
Theorem chunk_plan_correct (total batch : Z) :
  0 <= total -> 0 < batch -> total + batch <= 2 ^ 63 ->
  (exists fuel rs, chunk_ranges fuel total batch 0 = Some rs) /\
  (forall fuel rs, chunk_ranges fuel total batch 0 = Some rs ->
     chunk_plan_ok total batch rs).
Proof.
  intros Ht Hb Hn; split.
  - exists (S (Z.to_nat ((total - 0 + batch - 1) / batch))).
    assert (0 <= (total - 0 + batch - 1) / batch) by (apply Z.div_pos; lia).
    apply chunk_ranges_complete; lia.
  - intros fuel rs Hrun.
    destruct (chunk_ranges_sound total batch Hb Hn fuel 0 rs ltac:(lia) Hrun)
      as (Hc & Hf & Hfb & Hlen).
    unfold chunk_plan_ok.
    split; [exact Hc | split; [exact Hf | split; [exact Hfb | split]]].
    + rewrite Hlen; f_equal; lia.
    + split.
      * intros ->; simpl in Hc; lia.
      * intros ->; destruct rs as [| p r]; [reflexivity |].
        assert (0 < 0) by (apply (contiguous_from_nonempty 0 0 (p :: r) Hc); discriminate).
        lia.
Qed.

(** A witness of [chunk_plan_correct]: a 25 MiB resource in 16 MiB chunks. *)
Lemma chunk_plan_correct_witness :
  (0 <= 25 * 2 ^ 20 /\ 0 < 16 * 2 ^ 20 /\ 25 * 2 ^ 20 + 16 * 2 ^ 20 <= 2 ^ 63) /\
  chunk_ranges 3 (25 * 2 ^ 20) (16 * 2 ^ 20) 0 =
    Some [(0, 16 * 2 ^ 20); (16 * 2 ^ 20, 25 * 2 ^ 20)] /\
  chunk_plan_ok (25 * 2 ^ 20) (16 * 2 ^ 20) [(0, 16 * 2 ^ 20); (16 * 2 ^ 20, 25 * 2 ^ 20)].
Proof.
  assert (Hrun : chunk_ranges 3 (25 * 2 ^ 20) (16 * 2 ^ 20) 0 =
    Some [(0, 16 * 2 ^ 20); (16 * 2 ^ 20, 25 * 2 ^ 20)]) by (vm_compute; reflexivity).
  split; [lia | split; [exact Hrun |]].
  apply (proj2 (chunk_plan_correct (25 * 2 ^ 20) (16 * 2 ^ 20)
           ltac:(lia) ltac:(lia) ltac:(lia)) 3%nat _ Hrun).
Defined.

(** ** The range fetcher and the retrying fetcher *)

Lemma downloadChunk_run (env : Env) (url : string) (f t : Z) (s : St) :
  url_err env url = None ->
  downloadChunk env url f t s =
    (Ret (chunk_outcome env (List.length (gets s)) url (range_str f t)),
     mkSt (gets s ++ [(url, range_str f t)]) (writes s)).
Proof.
  intros Hurl; unfold downloadChunk, chunk_outcome, bind, http_get, ret.
  rewrite Hurl; simpl.
  destruct (client_do env (List.length (gets s)) url (range_str f t)) as [resp | e];
    [destruct (get_body_err resp) |]; reflexivity.
Qed.

(** Every attempt fails: the loop runs all [k] iterations, issues [k] GET
    requests and ends with the outcome of the last one. *)
Lemma retry_loop_all_fail (env : Env) (url : string) (f t : Z) :
  url_err env url = None ->
  (forall n, snd (chunk_outcome env n url (range_str f t)) <> None) ->
  forall k acc s,
  retry_loop env (S k) url f t acc s =
    (Ret (chunk_outcome env (List.length (gets s) + k) url (range_str f t)),
     mkSt (gets s ++ repeat (url, range_str f t) (S k)) (writes s)).
Proof.
  intros Hurl Hfail k; induction k as [| k IH]; intros acc s.
  - simpl retry_loop; unfold bind; rewrite downloadChunk_run by exact Hurl.
    destruct (snd (chunk_outcome env (List.length (gets s)) url (range_str f t))) eqn:E.
    + simpl; rewrite Nat.add_0_r; reflexivity.
    + exfalso; exact (Hfail _ E).
  - change (retry_loop env (S (S k)) url f t acc s) with
      (bind (downloadChunk env url f t)
         (fun r => match snd r with
                   | None => ret r
                   | Some _ => retry_loop env (S k) url f t r
                   end) s).
    unfold bind; rewrite downloadChunk_run by exact Hurl.
    destruct (snd (chunk_outcome env (List.length (gets s)) url (range_str f t))) eqn:E.
    + rewrite IH; simpl; rewrite length_app, <- app_assoc; simpl.
      replace (List.length (gets s) + 1 + k)%nat with (List.length (gets s) + S k)%nat
        by lia.
      reflexivity.
    + exfalso; exact (Hfail _ E).
Qed.

(** The first [k] attempts fail and the next one succeeds, with at least
    [k + 1] iterations available: [k + 1] GET requests, then the success. *)
Lemma retry_loop_succeeds_after (env : Env) (url : string) (f t : Z) :
  url_err env url = None ->
  forall k m acc s,
  (k < m)%nat ->
  (forall i, (i < k)%nat ->
     snd (chunk_outcome env (List.length (gets s) + i) url (range_str f t)) <> None) ->
  snd (chunk_outcome env (List.length (gets s) + k) url (range_str f t)) = None ->
  retry_loop env m url f t acc s =
    (Ret (chunk_outcome env (List.length (gets s) + k) url (range_str f t)),
     mkSt (gets s ++ repeat (url, range_str f t) (S k)) (writes s)).
Proof.
  intros Hurl k; induction k as [| k IH]; intros m acc s Hm Hfail Hok;
    (destruct m as [| m]; [lia |]); simpl retry_loop; unfold bind;
    rewrite downloadChunk_run by exact Hurl.
  - rewrite Nat.add_0_r in Hok |- *; rewrite Hok; reflexivity.
  - destruct (snd (chunk_outcome env (List.length (gets s)) url (range_str f t))) eqn:E.
    + rewrite IH with (m := m).
      * simpl; rewrite length_app, <- app_assoc; simpl.
        replace (List.length (gets s) + 1 + k)%nat with (List.length (gets s) + S k)%nat
          by lia.
        reflexivity.
      * lia.
      * intros i Hi; simpl; rewrite length_app; simpl.
        replace (List.length (gets s) + 1 + i)%nat with (List.length (gets s) + S i)%nat by lia.
        apply Hfail; lia.
      * simpl; rewrite length_app; simpl.
        replace (List.length (gets s) + 1 + k)%nat with (List.length (gets s) + S k)%nat by lia.
        exact Hok.
    + exfalso; apply (Hfail 0%nat); [lia | rewrite Nat.add_0_r; exact E].
Qed.

(** C3: with [MaxRetry >= 1] and an underlying fetch that fails on every
    attempt (a transport error or a body read error), [downloadChunkWithRetry]
    issues exactly [MaxRetry] GET requests, all for the same range, writes
    nothing, and returns the pair of the last attempt, a failure.  The URL is
    one [http.NewRequest] accepts: in the program [downloadChunk] only runs
    on URLs that the probe's [http.Head], which parses them the same way,
    accepted. *)
Theorem retry_exhausts_attempts (env : Env) (url : string) (f t : Z) (s : St) :
  1 <= MaxRetry env ->
  url_err env url = None ->
  (forall n, snd (chunk_outcome env n url (range_str f t)) <> None) ->
  downloadChunkWithRetry env url f t s =
    (Ret (chunk_outcome env (List.length (gets s) + Z.to_nat (MaxRetry env) - 1)
            url (range_str f t)),
     mkSt (gets s ++ repeat (url, range_str f t) (Z.to_nat (MaxRetry env))) (writes s)).
Proof.
  intros Hmax Hurl Hfail; unfold downloadChunkWithRetry.
  destruct (Z.to_nat (MaxRetry env)) as [| k] eqn:Hk; [lia |].
  rewrite retry_loop_all_fail by assumption.
  replace (List.length (gets s) + S k - 1)%nat with (List.length (gets s) + k)%nat by lia.
  reflexivity.
Qed.

Lemma retry_exhausts_attempts_witness :
  downloadChunkWithRetry env_always_fail url_a 0 9 st0 =
    (Ret ([], Some (NetError 2)),
     mkSt (repeat (url_a, range_str 0 9) 3) []).
Proof.
  rewrite (retry_exhausts_attempts env_always_fail url_a 0 9 st0).
  - reflexivity.
  - simpl; lia.
  - reflexivity.
  - intros n; simpl; discriminate.
Defined.

(** C4: for [0 <= k < MaxRetry], if the first [k] attempts fail and the
    next one succeeds, [downloadChunkWithRetry] issues exactly [k + 1] GET
    requests and returns the successful pair; no attempt follows it. *)
Theorem retry_stops_at_success (env : Env) (url : string) (f t : Z) (s : St) (k : nat) :
  Z.of_nat k < MaxRetry env ->
  url_err env url = None ->
  (forall i, (i < k)%nat ->
     snd (chunk_outcome env (List.length (gets s) + i) url (range_str f t)) <> None) ->
  snd (chunk_outcome env (List.length (gets s) + k) url (range_str f t)) = None ->
  downloadChunkWithRetry env url f t s =
    (Ret (chunk_outcome env (List.length (gets s) + k) url (range_str f t)),
     mkSt (gets s ++ repeat (url, range_str f t) (S k)) (writes s)).
Proof.
  intros Hk Hurl Hfail Hok; unfold downloadChunkWithRetry.
  apply retry_loop_succeeds_after; auto; lia.
Qed.

Lemma retry_stops_at_success_witness :
  downloadChunkWithRetry env_flaky url_a 0 0 st0 =
    (Ret ([Byte.x41], None), mkSt (repeat (url_a, range_str 0 0) 3) []).
Proof.
  rewrite (retry_stops_at_success env_flaky url_a 0 0 st0 2).
  - reflexivity.
  - simpl; lia.
  - reflexivity.
  - intros i Hi; destruct i as [| [| i]]; simpl; [discriminate | discriminate | lia].
  - reflexivity.
Defined.

(** ** C5: the range fetcher *)

(** C5 (as stated): a range fetch fails whenever the connection fails, the
    status is not a success, or the body read fails.  It fails for the
    status: a [500] answer whose body reads completely is returned as the
    chunk's bytes, with no error. *)
Lemma range_fetch_status_counterexample :
  downloadChunk env_500 url_a 0 9 st0 =
    (Ret ([Byte.x45; Byte.x52; Byte.x52], None), mkSt [(url_a, range_str 0 9)] []) /\
  ~ (forall env url f t s resp,
       url_err env url = None ->
       client_do env (List.length (gets s)) url (range_str f t) = GOk resp ->
       ~ (200 <= get_status resp < 300) ->
       exists r, fst (downloadChunk env url f t s) = Ret r /\ snd r <> None).
Proof.
  split; [reflexivity |].
  intros H.
  destruct (H env_500 url_a 0 9 st0 (mkGetResp 500 [Byte.x45; Byte.x52; Byte.x52] None)
              eq_refl eq_refl ltac:(simpl; lia)) as [r [Hr Hne]].
  simpl in Hr; injection Hr as <-; apply Hne; reflexivity.
Qed.

(** C5 (amended): [downloadChunk] returns an error, with a nil byte slice,
    when the request cannot be built, when [client.Do] fails (connection
    failure), or when reading the body fails, whatever bytes were read
    before the failure being dropped; a response whose body reads
    completely is returned as the chunk's bytes with no error, whatever its
    HTTP status. *)
Theorem range_fetch_outcomes (env : Env) (url : string) (f t : Z) (s : St) :
  (forall e, url_err env url = Some e ->
     downloadChunk env url f t s = (Ret ([], Some e), s)) /\
  (url_err env url = None ->
     snd (downloadChunk env url f t s) = mkSt (gets s ++ [(url, range_str f t)]) (writes s) /\
     (forall e, client_do env (List.length (gets s)) url (range_str f t) = GErr e ->
        fst (downloadChunk env url f t s) = Ret ([], Some e)) /\
     (forall resp e, client_do env (List.length (gets s)) url (range_str f t) = GOk resp ->
        get_body_err resp = Some e ->
        fst (downloadChunk env url f t s) = Ret ([], Some e)) /\
     (forall resp, client_do env (List.length (gets s)) url (range_str f t) = GOk resp ->
        get_body_err resp = None ->
        fst (downloadChunk env url f t s) = Ret (get_body resp, None))).
Proof.
  split.
  - intros e He; unfold downloadChunk; rewrite He; reflexivity.
  - intros Hurl; rewrite downloadChunk_run by exact Hurl.
    split; [reflexivity |].
    unfold chunk_outcome; simpl.
    split; [intros e He; rewrite He; reflexivity |].
    split; [intros resp e He Hb; rewrite He, Hb; reflexivity |].
    intros resp He Hb; rewrite He, Hb; reflexivity.
Qed.

(** ** The downloader's outcomes *)

Lemma downloadAndWrite_probe_error (env : Env) (fuel : nat) (url : string) (s : St) (e : GoError) :
  checkHeaders env url = GErr e ->
  downloadAndWrite env fuel url s = (Err e, s).
Proof. intros H; unfold downloadAndWrite; rewrite H; reflexivity. Qed.

Lemma downloadChunk_ret (env : Env) (url : string) (f t : Z) (s : St) :
  exists r s', downloadChunk env url f t s = (Ret r, s').
Proof.
  unfold downloadChunk, bind, http_get, ret.
  destruct (url_err env url); [do 2 eexists; reflexivity |]; simpl.
  destruct (client_do env (List.length (gets s)) url (range_str f t)) as [resp | e];
    [destruct (get_body_err resp) |]; do 2 eexists; reflexivity.
Qed.

Lemma retry_loop_ret (env : Env) (k : nat) (url : string) (f t : Z) :
  forall acc s, exists r s', retry_loop env k url f t acc s = (Ret r, s').
Proof.
  induction k as [| k IH]; intros acc s; simpl; [do 2 eexists; reflexivity |].
  unfold bind; destruct (downloadChunk_ret env url f t s) as (r & s' & ->).
  destruct (snd r); [apply IH | do 2 eexists; reflexivity].
Qed.

Lemma dw_loop_no_panic (env : Env) (url : string) (n b : Z) :
  forall fuel o s, fst (dw_loop env fuel url n b o s) <> Panic.
Proof.
  intros fuel; induction fuel as [| fuel IH]; intros o s; simpl; [discriminate |].
  destruct (o <? n); [| discriminate].
  unfold bind, downloadChunkWithRetry.
  destruct (retry_loop_ret env (Z.to_nat (MaxRetry env)) url o
              (i64 (next_offset_to n b o - 1)) ([], None) s) as (r & s' & ->).
  destruct (snd r); [discriminate |].
  unfold write_out; destruct (write_err env (List.length (writes s'))); [discriminate |].
  apply IH.
Qed.

(** ** C8: the Accept-Ranges check *)

(** C8: a probe answer whose [Accept-Ranges] value is absent ([Get] gives
    [""]) or anything but [bytes] makes [checkHeaders] fail with the
    Accept-Ranges error, and [downloadAndWrite] returns that error at once:
    no GET request, no write. *)
Theorem accept_ranges_required (env : Env) (url : string) (resp : HeadResp) :
  url_err env url = None ->
  head env url = GOk resp ->
  header_get (head_header resp) "Accept-Ranges" <> "bytes"%string ->
  checkHeaders env url = GErr ErrAcceptRanges /\
  (forall fuel s, downloadAndWrite env fuel url s = (Err ErrAcceptRanges, s)).
Proof.
  intros Hurl Hhead Har.
  assert (Hc : checkHeaders env url = GErr ErrAcceptRanges).
  { unfold checkHeaders; rewrite Hurl, Hhead; cbv zeta.
    destruct (String.eqb_spec (header_get (head_header resp) "Accept-Ranges") "bytes");
      [contradiction | reflexivity]. }
  split; [exact Hc |].
  intros fuel s; apply downloadAndWrite_probe_error; exact Hc.
Qed.

Lemma accept_ranges_required_witness :
  checkHeaders env_no_ranges url_a = GErr ErrAcceptRanges /\
  downloadAndWrite env_no_ranges 10 url_a st0 = (Err ErrAcceptRanges, st0).
Proof.
  destruct (accept_ranges_required env_no_ranges url_a
              (mkHeadResp 200 [("Content-Length", "10")%string]) eq_refl eq_refl)
    as [Hc Hd].
  - simpl; discriminate.
  - split; [exact Hc | apply Hd].
Defined.

(** ** C7: the Content-Length check *)

Lemma checkHeaders_ranges_ok (env : Env) (url : string) (resp : HeadResp) :
  url_err env url = None ->
  head env url = GOk resp ->
  header_get (head_header resp) "Accept-Ranges" = "bytes"%string ->
  checkHeaders env url = ParseInt (header_get (head_header resp) "Content-Length").
Proof.
  intros Hurl Hhead Har; unfold checkHeaders; rewrite Hurl, Hhead; cbv zeta.
  rewrite Har; simpl.
  destruct (ParseInt (header_get (head_header resp) "Content-Length")); reflexivity.
Qed.

Lemma parse_uint_loop_nonneg (s : string) :
  forall n z, 0 <= n -> parse_uint_loop s n = GOk z -> 0 <= z.
Proof.
  induction s as [| c r IH]; intros n z Hn H; simpl in H.
  - injection H as <-; exact Hn.
  - destruct (negb (is_digit c)) eqn:Hd; [discriminate |].
    destruct (uint_cutoff <=? n); [discriminate |].
    destruct (uint_max <? n * 10 + digit_val c); [discriminate |].
    refine (IH _ _ _ H).
    unfold digit_val, is_digit in *.
    apply negb_false_iff, andb_true_iff in Hd; destruct Hd as [Hd _].
    apply Z.leb_le in Hd; lia.
Qed.

Lemma ParseUint_nonneg (s : string) (z : Z) : ParseUint s = GOk z -> 0 <= z.
Proof.
  unfold ParseUint; destruct s as [| c r]; [discriminate |].
  apply parse_uint_loop_nonneg; lia.
Qed.



Lemma is_digit_not_sign (c : ascii) :
  is_digit c = true -> Ascii.eqb c "+"%char = false /\ Ascii.eqb c "-"%char = false.
Proof.
  intros H; split; apply Ascii.eqb_neq; intros ->; discriminate H.
Qed.





(** ** C10: the chunk-count division *)

(** C10 (as stated): [BatchSizeInMB = 0] with a successful probe divides by
    zero, and [downloadAndWrite] is total only when [batch_size > 0].  The
    second half fails: with [BatchSizeInMB = -1] ([batch_size = -2^20]) and
    an empty resource, [downloadAndWrite] returns without error. *)
Lemma batch_size_counterexample :
  batch_size env_batch_negative = - 2 ^ 20 /\
  downloadAndWrite env_batch_negative 1 url_a st0 = (Ret tt, st0) /\
  ~ (forall env url n fuel s s',
       checkHeaders env url = GOk n ->
       downloadAndWrite env fuel url s = (Ret tt, s') ->
       0 < batch_size env).
Proof.
  split; [vm_compute; reflexivity | split; [reflexivity |]].
  intros H.
  pose proof (H env_batch_negative url_a 0 1%nat st0 st0 eq_refl eq_refl) as Hb.
  vm_compute in Hb; discriminate.
Qed.

(** C10 (amended): once the probe succeeds, [downloadAndWrite] panics with
    an integer division by zero exactly when [batch_size = 0]
    ([BatchSizeInMB = 0] gives [batch_size = 0]), before any GET request or
    write; with any non-zero batch size, negative ones included, it never
    panics. *)
Theorem division_by_zero_panic (env : Env) (url : string) (n : Z) :
  checkHeaders env url = GOk n ->
  (BatchSizeInMB env = 0 -> batch_size env = 0) /\
  (batch_size env = 0 -> forall fuel s, downloadAndWrite env fuel url s = (Panic, s)) /\
  (batch_size env <> 0 -> forall fuel s, fst (downloadAndWrite env fuel url s) <> Panic).
Proof.
  intros Hc; split; [| split].
  - intros H0; unfold batch_size; rewrite H0; reflexivity.
  - intros H0 fuel s; unfold downloadAndWrite; rewrite Hc, H0; reflexivity.
  - intros H0 fuel s; unfold downloadAndWrite; rewrite Hc.
    unfold num_chunks; destruct (Z.eqb_spec (batch_size env) 0); [contradiction |].
    apply dw_loop_no_panic.
Qed.

Lemma division_by_zero_panic_witness :
  downloadAndWrite env_batch_zero 5 url_a st0 = (Panic, st0).
Proof.
  destruct (division_by_zero_panic env_batch_zero url_a 10 eq_refl) as (H1 & H2 & _).
  apply H2, H1; reflexivity.
Defined.

(** ** C6: the Range header *)

Lemma i64_range (z : Z) : in_int64 (i64 z).
Proof.
  unfold in_int64, MinInt64, MaxInt64, i64.
  pose proof (Z.mod_pos_bound z (2 ^ 64) ltac:(lia)).
  destruct (Z.ltb_spec (z mod 2 ^ 64) (2 ^ 63)); lia.
Qed.

(** A value [ParseInt] accepts is an [int64]. *)
Lemma ParseInt_int64 (s : string) (z : Z) : ParseInt s = GOk z -> in_int64 z.
Proof.
  unfold ParseInt, in_int64, MinInt64, MaxInt64; intros Hz.
  destruct s as [| c r]; [discriminate |].
  destruct (Ascii.eqb c "+"%char); [| destruct (Ascii.eqb c "-"%char)];
    destruct (ParseUint _) as [un | e] eqn:Hp;
    try (destruct e as [| | ? ? k | |]; discriminate);
    pose proof (ParseUint_nonneg _ _ Hp);
    cbn [negb andb] in Hz;
    destruct (Z.leb_spec (2 ^ 63) un); destruct (Z.ltb_spec (2 ^ 63) un);
    try discriminate; injection Hz as <-; lia.
Qed.

Lemma checkHeaders_int64 (env : Env) (url : string) (n : Z) :
  checkHeaders env url = GOk n -> in_int64 n.
Proof.
  unfold checkHeaders.
  destruct (url_err env url); [discriminate |].
  destruct (head env url) as [resp |]; [| discriminate]; cbv zeta.
  destruct (negb _); [discriminate |].
  destruct (ParseInt _) eqn:Hp; [| discriminate].
  intros H; injection H as <-; exact (ParseInt_int64 _ _ Hp).
Qed.

Lemma next_offset_to_int64 (n b o : Z) :
  in_int64 n -> in_int64 (next_offset_to n b o).
Proof.
  intros Hn; unfold next_offset_to.
  destruct (i64 (o + b) >? n); [exact Hn | apply i64_range].
Qed.

Lemma reached_int64 (n b o : Z) : in_int64 n -> reached n b o -> in_int64 o.
Proof.
  intros Hn H; destruct H.
  - unfold in_int64, MinInt64, MaxInt64; lia.
  - apply next_offset_to_int64; exact Hn.
Qed.

(** The GET requests of a run of the retry loop are all for its range. *)
Lemma retry_loop_gets (env : Env) (url : string) (f t : Z) :
  forall k acc s r s',
  retry_loop env k url f t acc s = (r, s') ->
  writes s' = writes s /\ exists j, gets s' = gets s ++ repeat (url, range_str f t) j.
Proof.
  intros k; induction k as [| k IH]; intros acc s r s' H; simpl in H.
  - injection H as _ <-; split; [reflexivity | exists 0%nat; symmetry; apply app_nil_r].
  - unfold bind in H.
    destruct (url_err env url) eqn:Hurl.
    + unfold downloadChunk in H; rewrite Hurl in H; simpl in H.
      exact (IH _ _ _ _ H).
    + rewrite downloadChunk_run in H by exact Hurl.
      destruct (snd (chunk_outcome env (List.length (gets s)) url (range_str f t))).
      * destruct (IH _ _ _ _ H) as [Hw [j Hj]]; simpl in Hw, Hj.
        split; [exact Hw |].
        exists (S j); rewrite Hj, <- app_assoc; reflexivity.
      * injection H as _ <-; simpl.
        split; [reflexivity | exists 1%nat; reflexivity].
Qed.

(** Every GET request of a run of the loop of [downloadAndWrite] is the one
    [downloadChunk] builds for a chunk [[o, offsetTo)] of the plan, with
    [offsetTo - 1] as the second bound. *)
Lemma dw_loop_gets (env : Env) (url : string) (n b : Z) :
  forall fuel o s r s',
  reached n b o ->
  dw_loop env fuel url n b o s = (r, s') ->
  exists new, gets s' = gets s ++ new /\
  Forall (fun g => exists o', reached n b o' /\ o' < n /\
            g = (url, range_str o' (i64 (next_offset_to n b o' - 1)))) new.
Proof.
  intros fuel; induction fuel as [| fuel IH]; intros o s r s' Ho H; simpl in H.
  - injection H as _ <-; exists []; split; [symmetry; apply app_nil_r | constructor].
  - destruct (Z.ltb_spec o n) as [Hlt | Hge].
    + unfold bind, downloadChunkWithRetry in H.
      destruct (retry_loop env (Z.to_nat (MaxRetry env)) url o
                  (i64 (next_offset_to n b o - 1)) ([], None) s) as [r1 s1] eqn:Hr.
      destruct (retry_loop_gets env url o _ _ _ _ _ _ Hr) as [Hw1 [j Hj]].
      assert (Hrep : Forall (fun g => exists o', reached n b o' /\ o' < n /\
                       g = (url, range_str o' (i64 (next_offset_to n b o' - 1))))
                       (repeat (url, range_str o (i64 (next_offset_to n b o - 1))) j)).
      { apply Forall_forall; intros g Hg; apply repeat_spec in Hg; subst g; eauto. }
      destruct r1 as [[bytes [e |]] | e | |]; simpl in H; try (injection H as _ <-; eauto).
      unfold write_out in H.
      destruct (write_err env (List.length (writes s1))); simpl in H.
      * injection H as _ <-; eauto.
      * destruct (IH _ _ _ _ (reached_next n b o Ho Hlt) H) as [new' [Hn' Hf']].
        simpl in Hn'.
        exists (repeat (url, range_str o (i64 (next_offset_to n b o - 1))) j ++ new').
        split; [rewrite Hn', Hj, app_assoc; reflexivity |].
        apply Forall_app; split; assumption.
    + injection H as _ <-; exists []; split; [symmetry; apply app_nil_r | constructor].
Qed.

(** C6: every GET request a run of [downloadAndWrite] issues is the one
    [downloadChunk] builds for a chunk [[from, to)] of the plan ([from]
    reached by the loop, [from < contentLen], [to] its [offsetTo]): its URL
    and the header [fmt.Sprintf("bytes=%v-%v", from, to - 1)], with Go's
    [int64] subtraction.  When [from < to] that header is exactly
    [bytes=<from>-<to-1>], end-inclusive. *)
Theorem range_header_inclusive (env : Env) (fuel : nat) (url : string) (s : St)
    (r : Res unit) (s' : St) :
  downloadAndWrite env fuel url s = (r, s') ->
  exists new, gets s' = gets s ++ new /\
  Forall (fun g => exists n from, checkHeaders env url = GOk n /\
            reached n (batch_size env) from /\ from < n /\
            g = (url, range_str from (i64 (next_offset_to n (batch_size env) from - 1))) /\
            (from < next_offset_to n (batch_size env) from ->
             snd g = ("bytes=" ++ format_int from ++ "-" ++
                      format_int (next_offset_to n (batch_size env) from - 1))%string))
    new.
Proof.
  unfold downloadAndWrite; intros H.
  destruct (checkHeaders env url) as [n | e] eqn:Hc;
    [| injection H as _ <-; exists []; split; [symmetry; apply app_nil_r | constructor]].
  destruct (num_chunks n (batch_size env));
    [| injection H as _ <-; exists []; split; [symmetry; apply app_nil_r | constructor]].
  destruct (dw_loop_gets env url n (batch_size env) fuel 0 s r s'
              (reached_start n (batch_size env)) H) as [new [Hnew Hf]].
  exists new; split; [exact Hnew |].
  pose proof (checkHeaders_int64 env url n Hc) as Hn.
  eapply Forall_impl; [| exact Hf].
  intros g (o & Ho & Hlt & ->).
  exists n, o; split; [reflexivity | split; [exact Ho | split; [exact Hlt | split; [reflexivity |]]]].
  intros Hto; simpl.
  pose proof (reached_int64 n _ o Hn Ho) as Hoi.
  pose proof (next_offset_to_int64 n (batch_size env) o Hn) as Hti.
  unfold range_str; rewrite (i64_id (next_offset_to n (batch_size env) o - 1)).
  - reflexivity.
  - unfold in_int64 in *; lia.
Qed.

Lemma range_header_inclusive_witness :
  downloadAndWrite env_two 5 url_a st0 =
    (Ret tt, mkSt [(url_a, "bytes=0-1048575"%string);
                   (url_a, "bytes=1048576-1499999"%string)]
                  [[Byte.x41]; [Byte.x41]]) /\
  exists new, [(url_a, "bytes=0-1048575"%string);
               (url_a, "bytes=1048576-1499999"%string)] = [] ++ new /\
  Forall (fun g => exists n from, checkHeaders env_two url_a = GOk n /\
            reached n (batch_size env_two) from /\ from < n /\
            g = (url_a, range_str from
                   (i64 (next_offset_to n (batch_size env_two) from - 1))) /\
            (from < next_offset_to n (batch_size env_two) from ->
             snd g = ("bytes=" ++ format_int from ++ "-" ++
                      format_int (next_offset_to n (batch_size env_two) from - 1))%string))
    new.
Proof.
  assert (Hrun : downloadAndWrite env_two 5 url_a st0 =
    (Ret tt, mkSt [(url_a, "bytes=0-1048575"%string);
                   (url_a, "bytes=1048576-1499999"%string)]
                  [[Byte.x41]; [Byte.x41]])) by (vm_compute; reflexivity).
  split; [exact Hrun |].
  exact (range_header_inclusive env_two 5 url_a st0 _ _ Hrun).
Defined.

(** ** The writes of a run *)

(** If the retry loop returns [payload from to] without error for every
    chunk of the plan and leaves the sink alone, and the sink accepts every
    write, then the loop of [downloadAndWrite] never returns an error, and
    when it returns it has written the payloads of the plan's chunks, in the
    plan's order, one write per chunk. *)
Lemma dw_loop_trace (env : Env) (url : string) (n b : Z)
    (payload : Z -> Z -> list Byte.byte) :
  (forall i, write_err env i = None) ->
  (forall o s, reached n b o -> o < n ->
     exists s1,
       downloadChunkWithRetry env url o (i64 (next_offset_to n b o - 1)) s =
         (Ret (payload o (next_offset_to n b o), None), s1) /\
       writes s1 = writes s) ->
  forall fuel o s r s',
  reached n b o ->
  dw_loop env fuel url n b o s = (r, s') ->
  (forall e, r <> Err e) /\
  (r = Ret tt ->
   exists rs, chunk_ranges fuel n b o = Some rs /\
     writes s' = writes s ++ map (fun p => payload (fst p) (snd p)) rs).
Proof.
  intros Hw Hretry fuel; induction fuel as [| fuel IH]; intros o s r s' Ho H; simpl in H.
  - injection H as <- _; split; [discriminate | discriminate].
  - destruct (Z.ltb_spec o n) as [Hlt | Hge].
    + destruct (Hretry o s Ho Hlt) as [s1 [Hr Hw1]].
      unfold bind in H; rewrite Hr in H; simpl in H.
      unfold write_out in H; rewrite Hw in H.
      destruct (IH _ _ _ _ (reached_next n b o Ho Hlt) H) as [Hne Htr].
      split; [exact Hne |].
      intros Hok; destruct (Htr Hok) as [rs [Hrs Hws]].
      exists ((o, next_offset_to n b o) :: rs); simpl.
      destruct (Z.ltb_spec o n); [| lia].
      rewrite Hrs; split; [reflexivity |].
      rewrite Hws; simpl; rewrite Hw1, <- app_assoc; reflexivity.
    + injection H as <- <-; split; [discriminate |].
      intros _; exists []; simpl.
      destruct (Z.ltb_spec o n); [lia |].
      split; [reflexivity | symmetry; apply app_nil_r].
Qed.

(** With no iteration of the retry loop nothing is fetched. *)
Lemma retry_none (env : Env) (url : string) (f t : Z) (s : St) :
  MaxRetry env <= 0 ->
  downloadChunkWithRetry env url f t s = (Ret ([], None), s).
Proof.
  intros H; unfold downloadChunkWithRetry.
  replace (Z.to_nat (MaxRetry env)) with 0%nat by lia; reflexivity.
Qed.

Lemma dw_loop_no_retry_gets (env : Env) (url : string) (n b : Z) :
  MaxRetry env <= 0 ->
  forall fuel o s r s', dw_loop env fuel url n b o s = (r, s') -> gets s' = gets s.
Proof.
  intros Hm fuel; induction fuel as [| fuel IH]; intros o s r s' H; simpl in H.
  - injection H as _ <-; reflexivity.
  - destruct (o <? n).
    + unfold bind in H; rewrite retry_none in H by exact Hm; simpl in H.
      unfold write_out in H.
      destruct (write_err env (List.length (writes s))).
      * injection H as _ <-; reflexivity.
      * exact (IH _ _ _ _ H).
    + injection H as _ <-; reflexivity.
Qed.

(** ** C9: a retry budget of zero or less *)

(** C9: with [MaxRetry <= 0] the retry loop makes no attempt and returns
    [nil, nil]; a download whose probe succeeds, on a sink that accepts its
    writes, then never reports an error, issues no GET request, and, when it
    returns, has written one empty slice per chunk of the plan. *)
Theorem zero_retry_budget (env : Env) :
  MaxRetry env <= 0 ->
  (forall url f t s, downloadChunkWithRetry env url f t s = (Ret ([], None), s)) /\
  (forall fuel url n s r s',
     checkHeaders env url = GOk n ->
     (forall i, write_err env i = None) ->
     downloadAndWrite env fuel url s = (r, s') ->
     (forall e, r <> Err e) /\ gets s' = gets s /\
     (r = Ret tt ->
      exists rs, chunk_ranges fuel n (batch_size env) 0 = Some rs /\
        writes s' = writes s ++ map (fun _ => []) rs)).
Proof.
  intros Hm; split; [intros; apply retry_none; exact Hm |].
  intros fuel url n s r s' Hc Hw H.
  unfold downloadAndWrite in H; rewrite Hc in H.
  destruct (num_chunks n (batch_size env)).
  - pose proof (dw_loop_no_retry_gets env url n (batch_size env) Hm fuel 0 s r s' H) as Hg.
    destruct (dw_loop_trace env url n (batch_size env) (fun _ _ => []) Hw
                ltac:(intros o s0 _ _; exists s0; split; [apply retry_none; exact Hm | reflexivity])
                fuel 0 s r s' (reached_start _ _) H) as [Hne Htr].
    split; [exact Hne | split; [exact Hg |]].
    intros Hok; destruct (Htr Hok) as [rs [Hrs Hws]]; exists rs; split; [exact Hrs |].
    rewrite Hws; reflexivity.
  - injection H as <- <-; split; [discriminate | split; [reflexivity | discriminate]].
Qed.

Lemma zero_retry_budget_witness :
  downloadAndWrite env_no_retry 5 url_a st0 = (Ret tt, mkSt [] [[]]) /\
  (forall e, (Ret tt : Res unit) <> Err e) /\ gets (mkSt [] [[]]) = gets st0 /\
  ((Ret tt : Res unit) = Ret tt ->
   exists rs, chunk_ranges 5 1 (batch_size env_no_retry) 0 = Some rs /\
     writes (mkSt [] [[]]) = writes st0 ++ map (fun _ => []) rs).
Proof.
  assert (Hrun : downloadAndWrite env_no_retry 5 url_a st0 = (Ret tt, mkSt [] [[]]))
    by (vm_compute; reflexivity).
  split; [exact Hrun |].
  destruct (zero_retry_budget env_no_retry ltac:(simpl; lia)) as [_ H].
  exact (H 5%nat url_a 1 st0 (Ret tt) (mkSt [] [[]]) eq_refl (fun _ => eq_refl) Hrun).
Defined.

(** ** C2: what reaches the sink *)

Lemma firstn_add_skipn {A} (x y : nat) (l : list A) :
  firstn (x + y) l = firstn x l ++ firstn y (skipn x l).
Proof.
  revert l; induction x as [| x IH]; intros l; [reflexivity |].
  destruct l as [| h t]; simpl.
  - rewrite firstn_nil; reflexivity.
  - rewrite IH; reflexivity.
Qed.

Lemma slice_app (body : list Byte.byte) (a t n : Z) :
  0 <= a <= t -> t <= n ->
  slice body a t ++ slice body t n = slice body a n.
Proof.
  intros Hat Htn; unfold slice.
  replace (Z.to_nat t) with (Z.to_nat (t - a) + Z.to_nat a)%nat by lia.
  rewrite <- skipn_skipn, <- firstn_add_skipn.
  f_equal; lia.
Qed.

Lemma slice_concat (body : list Byte.byte) (n : Z) :
  forall rs a, 0 <= a -> contiguous_from a n rs ->
  List.concat (map (fun p => slice body (fst p) (snd p)) rs) = slice body a n.
Proof.
  induction rs as [| [f t] r IH]; intros a Ha H; simpl in H.
  - subst n; unfold slice; rewrite Z.sub_diag; reflexivity.
  - destruct H as [-> [Hlt Hr]]; simpl.
    rewrite (IH t) by (lia || exact Hr).
    apply slice_app; [lia | exact (contiguous_from_le _ _ _ Hr)].
Qed.

Lemma slice_all (body : list Byte.byte) :
  slice body 0 (Z.of_nat (List.length body)) = body.
Proof.
  unfold slice; rewrite Z.sub_0_r, Nat2Z.id; simpl; apply firstn_all.
Qed.

Lemma reached_bounds (n b o : Z) :
  0 <= n -> 0 < b -> n + b <= 2 ^ 63 -> reached n b o -> 0 <= o <= n.
Proof.
  intros Hn Hb Hnb H; induction H as [| o Ho IH Hlt]; [lia |].
  rewrite next_offset_to_min by lia; lia.
Qed.

Lemma chunk_ranges_det (n b : Z) :
  forall f1 f2 o rs1 rs2,
  chunk_ranges f1 n b o = Some rs1 -> chunk_ranges f2 n b o = Some rs2 -> rs1 = rs2.
Proof.
  intros f1; induction f1 as [| f1 IH]; intros f2 o rs1 rs2 H1 H2; [discriminate |].
  destruct f2 as [| f2]; [discriminate |]; simpl in H1, H2.
  destruct (o <? n).
  - destruct (chunk_ranges f1 n b (next_offset_to n b o)) as [r1 |] eqn:E1; [| discriminate].
    destruct (chunk_ranges f2 n b (next_offset_to n b o)) as [r2 |] eqn:E2; [| discriminate].
    simpl in H1, H2; injection H1 as <-; injection H2 as <-.
    f_equal; exact (IH _ _ _ _ E1 E2).
  - injection H1 as <-; injection H2 as <-; reflexivity.
Qed.

(** Any run of the loop that returns visits the plan [chunk_plan]. *)
Lemma chunk_ranges_plan (n b : Z) (fuel : nat) (rs : list (Z * Z)) :
  0 <= n -> 0 < b -> n + b <= 2 ^ 63 ->
  chunk_ranges fuel n b 0 = Some rs -> rs = chunk_plan n b.
Proof.
  intros Hn Hb Hnb H.
  destruct (chunk_ranges_complete n b Hb Hnb (S (Z.to_nat ((n + b - 1) / b))) 0)
    as [rs' Hrs']; [lia | |].
  - assert (0 <= (n + b - 1) / b) by (apply Z.div_pos; lia).
    replace (n - 0 + b - 1) with (n + b - 1) by ring; lia.
  - unfold chunk_plan; rewrite Hrs'; exact (chunk_ranges_det n b _ _ 0 _ _ H Hrs').
Qed.

(** The writes of a resource: the slices of its body on the plan, in order. *)
Lemma download_one_resource (env : Env) (url : string) (body : list Byte.byte)
    (fuel : nat) (s s' : St) :
  1 <= MaxRetry env -> 0 < batch_size env ->
  (forall i, write_err env i = None) ->
  url_err env url = None ->
  checkHeaders env url = GOk (Z.of_nat (List.length body)) ->
  Z.of_nat (List.length body) + batch_size env <= 2 ^ 63 ->
  (forall k f l, 0 <= f <= l -> l < Z.of_nat (List.length body) ->
     exists st, client_do env k url (range_str f l) =
                GOk (mkGetResp st (slice body f (l + 1)) None)) ->
  downloadAndWrite env fuel url s = (Ret tt, s') ->
  writes s' = writes s ++
    map (fun p => slice body (fst p) (snd p))
      (chunk_plan (Z.of_nat (List.length body)) (batch_size env)).
Proof.
  intros Hm Hb Hw Hurl Hc Hnb Hget H.
  set (n := Z.of_nat (List.length body)) in *.
  unfold downloadAndWrite in H; rewrite Hc in H.
  unfold num_chunks in H; destruct (Z.eqb_spec (batch_size env) 0); [lia |].
  assert (Hretry : forall o s0, reached n (batch_size env) o -> o < n ->
     exists s1,
       downloadChunkWithRetry env url o (i64 (next_offset_to n (batch_size env) o - 1)) s0 =
         (Ret (slice body o (next_offset_to n (batch_size env) o), None), s1) /\
       writes s1 = writes s0).
  { intros o s0 Ho Hlt.
    pose proof (reached_bounds n _ o ltac:(lia) Hb Hnb Ho) as Hob.
    rewrite (next_offset_to_min n (batch_size env) o) by lia.
    set (t := Z.min (o + batch_size env) n).
    rewrite (i64_id (t - 1)) by (unfold in_int64, MinInt64, MaxInt64, t; lia).
    destruct (Hget (List.length (gets s0) + 0)%nat o (t - 1)) as [st Hst];
      [unfold t; lia | unfold t; lia |].
    replace (t - 1 + 1) with t in Hst by ring.
    unfold downloadChunkWithRetry.
    rewrite (retry_loop_succeeds_after env url o (t - 1) Hurl 0 _ ([], None) s0);
      [| lia | intros i Hi; lia |].
    - unfold chunk_outcome; rewrite Hst; simpl.
      exists (mkSt (gets s0 ++ [(url, range_str o (t - 1))]) (writes s0)).
      split; reflexivity.
    - unfold chunk_outcome; rewrite Hst; reflexivity. }
  destruct (dw_loop_trace env url n (batch_size env) (slice body) Hw Hretry fuel 0 s _ s'
              (reached_start _ _) H) as [_ Htr].
  destruct (Htr eq_refl) as [rs [Hrs Hws]].
  rewrite Hws, <- (chunk_ranges_plan n (batch_size env) fuel rs); [reflexivity | lia | exact Hb | exact Hnb | exact Hrs].
Qed.

(** The slices of a body on its plan put back together give the body. *)
Lemma plan_slices_body (body : list Byte.byte) (b : Z) :
  0 < b -> Z.of_nat (List.length body) + b <= 2 ^ 63 ->
  List.concat (map (fun p => slice body (fst p) (snd p))
                 (chunk_plan (Z.of_nat (List.length body)) b)) = body.
Proof.
  intros Hb Hnb.
  set (n := Z.of_nat (List.length body)) in *.
  destruct (chunk_ranges_complete n b Hb Hnb (S (Z.to_nat ((n + b - 1) / b))) 0)
    as [rs Hrs]; [lia | |].
  - assert (0 <= (n + b - 1) / b) by (apply Z.div_pos; lia).
    replace (n - 0 + b - 1) with (n + b - 1) by ring; lia.
  - rewrite <- (chunk_ranges_plan n b _ rs) by (lia || exact Hrs).
    destruct (chunk_ranges_sound n b Hb Hnb _ 0 rs ltac:(lia) Hrs) as [Hc _].
    rewrite (slice_concat body n rs 0) by (lia || exact Hc).
    apply slice_all.
Qed.

(** The run over the whole list: when it completes without error, the sink
    has received, resource after resource in list order, the slices of each
    body on its chunk plan in ascending order, one write per chunk, and
    these bytes are the bodies put end to end.  The retry budget is at least
    one attempt and no [int64] overflow occurs. *)
Theorem download_writes_bodies (env : Env) (files : list string)
    (body : string -> list Byte.byte) (fuel : nat) (s s' : St) :
  1 <= MaxRetry env -> 0 < batch_size env ->
  (forall i, write_err env i = None) ->
  (forall url, In url files ->
     url_err env url = None /\
     checkHeaders env url = GOk (Z.of_nat (List.length (body url))) /\
     Z.of_nat (List.length (body url)) + batch_size env <= 2 ^ 63 /\
     (forall k f l, 0 <= f <= l -> l < Z.of_nat (List.length (body url)) ->
        exists st, client_do env k url (range_str f l) =
                   GOk (mkGetResp st (slice (body url) f (l + 1)) None))) ->
  main_loop env fuel files s = (Ret tt, s') ->
  writes s' = writes s ++
    List.concat (map (fun url => map (fun p => slice (body url) (fst p) (snd p))
                        (chunk_plan (Z.of_nat (List.length (body url))) (batch_size env)))
                   files) /\
  List.concat
    (List.concat (map (fun url => map (fun p => slice (body url) (fst p) (snd p))
                        (chunk_plan (Z.of_nat (List.length (body url))) (batch_size env)))
                   files)) = List.concat (map body files).
Proof.
  intros Hm Hb Hw Hfiles H.
  split.
  - revert s H; induction files as [| u rest IH]; intros s H; simpl in H.
    + injection H as <-; symmetry; apply app_nil_r.
    + unfold bind in H.
      destruct (downloadAndWrite env fuel u s) as [r1 s1] eqn:Hd.
      destruct r1 as [[] | | |]; try discriminate.
      destruct (Hfiles u (or_introl eq_refl)) as (Hurl & Hc & Hnb & Hget).
      rewrite (IH (fun v Hv => Hfiles v (or_intror Hv)) s1 H).
      rewrite (download_one_resource env u (body u) fuel s s1 Hm Hb Hw Hurl Hc Hnb Hget Hd).
      simpl; rewrite app_assoc; reflexivity.
  - clear H; induction files as [| u rest IH]; [reflexivity |]; simpl.
    rewrite concat_app, IH by (intros v Hv; apply Hfiles; right; exact Hv).
    destruct (Hfiles u (or_introl eq_refl)) as (_ & _ & Hnb & _).
    rewrite plan_slices_body by (exact Hb || exact Hnb); reflexivity.
Qed.

(** C2 (code defect): with [-m 0] the retry loop makes no attempt and
    returns [nil, nil], so a one-byte resource, whose range request would
    return exactly its byte, is "downloaded" without error while the sink
    receives no byte at all. *)
Theorem zero_retry_drops_bytes :
  checkHeaders env_no_retry url_a = GOk 1 /\
  client_do env_no_retry 0 url_a (range_str 0 0) =
    GOk (mkGetResp 206 (slice [Byte.x41] 0 (0 + 1)) None) /\
  main_loop env_no_retry 5 [url_a] st0 = (Ret tt, mkSt [] [[]]) /\
  List.concat (writes (mkSt [] [[]])) = [].
Proof. split; [| split; [| split]]; vm_compute; reflexivity. Qed.

(** ** The list resolver *)

Lemma list_ascii_of_string_app (s1 s2 : string) :
  list_ascii_of_string (s1 ++ s2) = list_ascii_of_string s1 ++ list_ascii_of_string s2.
Proof. induction s1 as [| c s1 IH]; simpl; [reflexivity | rewrite IH; reflexivity]. Qed.

Lemma string_of_list_ascii_app (a b : list ascii) :
  string_of_list_ascii (a ++ b) = (string_of_list_ascii a ++ string_of_list_ascii b)%string.
Proof. induction a as [| c a IH]; simpl; [reflexivity | rewrite IH; reflexivity]. Qed.

Lemma length_list_ascii (s : string) :
  List.length (list_ascii_of_string s) = String.length s.
Proof. induction s as [| c s IH]; simpl; auto. Qed.

Lemma split_nl_line (l rest : list ascii) :
  ~ In "010"%char l -> split_nl (l ++ "010"%char :: rest) = l :: split_nl rest.
Proof.
  induction l as [| c l IH]; intros Hl; simpl; [reflexivity |].
  destruct (Ascii.eqb_spec c "010"%char) as [-> | Hc];
    [exfalso; apply Hl; left; reflexivity |].
  rewrite IH by (intros H; apply Hl; right; exact H); reflexivity.
Qed.

Lemma split_nl_nonempty (l : list ascii) : split_nl l <> [].
Proof.
  destruct l as [| c l]; simpl; [discriminate |].
  destruct (Ascii.eqb c "010"%char); [discriminate |].
  destruct (split_nl l); discriminate.
Qed.

Lemma scan_pieces_cons (lim : nat) (p : list ascii) (rest : list (list ascii)) :
  rest <> [] ->
  scan_pieces lim (p :: rest) =
    if (List.length p + 1 <=? MaxScanTokenSize)%nat
    then dropCR p :: scan_pieces lim rest else [].
Proof. intros H; destruct rest; [contradiction | reflexivity]. Qed.

Lemma dropCR_cr (l : list ascii) : dropCR (l ++ ["013"%char]) = l.
Proof. unfold dropCR; rewrite rev_app_distr; simpl; rewrite rev_involutive; reflexivity. Qed.

Lemma get_nth_error (s : string) (n : nat) :
  String.get n s = nth_error (list_ascii_of_string s) n.
Proof.
  revert n; induction s as [| c s IH]; intros [| n]; simpl; auto.
Qed.

Lemma dropCR_no_cr (l : string) :
  String.get (String.length l - 1) l <> Some "013"%char ->
  dropCR (list_ascii_of_string l) = list_ascii_of_string l.
Proof.
  intros Hl; unfold dropCR.
  destruct (rev (list_ascii_of_string l)) as [| c r] eqn:E; [reflexivity |].
  destruct (Ascii.eqb_spec c "013"%char) as [-> | _]; [| reflexivity].
  exfalso; apply Hl.
  assert (Hl' : list_ascii_of_string l = rev r ++ ["013"%char])
    by (rewrite <- (rev_involutive (list_ascii_of_string l)), E; reflexivity).
  rewrite get_nth_error, <- length_list_ascii, Hl', length_app; simpl.
  rewrite nth_error_app2 by lia.
  replace (List.length (rev r) + 1 - 1 - List.length (rev r))%nat with 0%nat by lia.
  reflexivity.
Qed.

(** The tokens of a manifest whose lines end with [e] followed by ['\n']. *)
Lemma scan_pieces_manifest (lim : nat) (e : list ascii) (ls : list string) :
  ~ In "010"%char e ->
  Forall (fun l => ~ In "010"%char (list_ascii_of_string l) /\
                   (String.length l + List.length e + 1 <= MaxScanTokenSize)%nat) ls ->
  scan_pieces lim
    (split_nl (list_ascii_of_string
       (manifest_text (string_of_list_ascii (e ++ ["010"%char])) ls))) =
  map (fun l => dropCR (list_ascii_of_string l ++ e)) ls.
Proof.
  intros He Hls; induction Hls as [| l ls [Hl Hlen] Hls IH]; [reflexivity |].
  simpl manifest_text; rewrite !list_ascii_of_string_app, list_ascii_of_string_of_list_ascii.
  rewrite app_assoc, <- app_assoc with (l := list_ascii_of_string l); simpl.
  rewrite <- app_assoc; simpl.
  rewrite app_assoc, split_nl_line.
  - rewrite scan_pieces_cons by apply split_nl_nonempty.
    rewrite length_app, length_list_ascii.
    destruct (Nat.leb_spec (String.length l + List.length e + 1) MaxScanTokenSize);
      [| lia].
    simpl; rewrite IH; reflexivity.
  - intros H; apply in_app_or in H; destruct H; contradiction.
Qed.

(** The scan of a manifest written with line feeds (used by the theorems
    on [main] as well). *)
Lemma scan_manifest_lf (eof_with_last_bytes : bool) (ls : list string) :
  Forall (fun l => ~ In "010"%char (list_ascii_of_string l) /\
                   String.get (String.length l - 1) l <> Some "013"%char /\
                   (String.length l + 1 <= MaxScanTokenSize)%nat) ls ->
  scan_lines eof_with_last_bytes (manifest_text LF ls) = ls.
Proof.
  intros Hls; unfold scan_lines.
  change LF with (string_of_list_ascii ([] ++ ["010"%char])).
  rewrite scan_pieces_manifest.
  - rewrite map_map; induction Hls as [| l ls (_ & Hcr & _) Hls IH]; [reflexivity |].
    simpl; rewrite IH, app_nil_r, dropCR_no_cr by exact Hcr.
    rewrite string_of_list_ascii_of_string; reflexivity.
  - intros [].
  - eapply Forall_impl; [| exact Hls]; intros l (Hl & _ & Hlen); simpl; split; [exact Hl | lia].
Qed.

(** The resolver's scan of a manifest whose lines each end with a line feed
    gives back its lines, in order, empty lines included, whatever the
    reader: none of them contains a ['\n'] nor ends with ['\r'] (the
    scanner removes one), and each fits in the scanner's 64 KiB buffer
    together with its newline. *)
Theorem scan_lines_lf (eof_with_last_bytes : bool) (ls : list string) :
  Forall (fun l => ~ In "010"%char (list_ascii_of_string l) /\
                   String.get (String.length l - 1) l <> Some "013"%char /\
                   (String.length l + 1 <= MaxScanTokenSize)%nat) ls ->
  scan_lines eof_with_last_bytes (manifest_text LF ls) = ls.
Proof. exact (scan_manifest_lf eof_with_last_bytes ls). Qed.

Lemma scan_lines_lf_witness :
  scan_lines false (manifest_text LF ["http://a/f1"; ""; "# comment"]%string) =
    ["http://a/f1"; ""; "# comment"]%string.
Proof.
  apply scan_lines_lf.
  repeat apply Forall_cons; try apply Forall_nil; repeat split;
    try (apply Nat.leb_le; vm_compute; reflexivity);
    vm_compute; intros H; intuition discriminate.
Defined.

(** The same for a manifest whose lines each end with ["\r\n"]: the
    scanner drops the carriage returns and gives back the lines, which
    contain no ['\n'] and fit in the buffer with their line ending. *)
Theorem scan_lines_crlf (eof_with_last_bytes : bool) (ls : list string) :
  Forall (fun l => ~ In "010"%char (list_ascii_of_string l) /\
                   (String.length l + 2 <= MaxScanTokenSize)%nat) ls ->
  scan_lines eof_with_last_bytes (manifest_text CRLF ls) = ls.
Proof.
  intros Hls; unfold scan_lines.
  change CRLF with (string_of_list_ascii (["013"%char] ++ ["010"%char])).
  rewrite scan_pieces_manifest.
  - rewrite map_map; clear Hls; induction ls as [| l ls IH]; [reflexivity |].
    simpl; rewrite IH, dropCR_cr, string_of_list_ascii_of_string; reflexivity.
  - intros [H | []]; discriminate.
  - eapply Forall_impl; [| exact Hls]; intros l [Hl Hlen]; simpl; split; [exact Hl | lia].
Qed.

Lemma scan_lines_crlf_witness :
  scan_lines true (manifest_text CRLF ["https://a/f1"; "http://b/f2"]%string) =
    ["https://a/f1"; "http://b/f2"]%string.
Proof.
  apply scan_lines_crlf.
  repeat apply Forall_cons; try apply Forall_nil; repeat split;
    try (apply Nat.leb_le; vm_compute; reflexivity);
    vm_compute; intros H; intuition discriminate.
Defined.

Lemma split_nl_manifest_app (ls : list string) (t : list ascii) :
  Forall (fun l => ~ In "010"%char (list_ascii_of_string l)) ls ->
  split_nl (list_ascii_of_string (manifest_text LF ls) ++ t) =
    map list_ascii_of_string ls ++ split_nl t.
Proof.
  intros Hls; induction Hls as [| l ls Hl Hls IH]; [reflexivity |].
  simpl manifest_text; rewrite !list_ascii_of_string_app; simpl.
  rewrite <- app_assoc; simpl; rewrite split_nl_line by exact Hl.
  rewrite IH; reflexivity.
Qed.

Lemma scan_pieces_app (lim : nat) (ps : list (list ascii)) (q : list ascii)
    (qs : list (list ascii)) :
  Forall (fun p => (List.length p + 1 <= MaxScanTokenSize)%nat) ps ->
  scan_pieces lim (ps ++ q :: qs) = map dropCR ps ++ scan_pieces lim (q :: qs).
Proof.
  intros Hps; induction Hps as [| p ps Hp Hps IH]; [reflexivity |].
  simpl app; rewrite scan_pieces_cons by (destruct ps; discriminate).
  destruct (Nat.leb_spec (List.length p + 1) MaxScanTokenSize); [| lia].
  rewrite IH; reflexivity.
Qed.

(** A manifest line that does not fit in the scanner's 64 KiB buffer ends
    the scan with [bufio.ErrTooLong], which [downloadList] never checks:
    the resolver returns, without error, the URLs of the lines before it
    and silently drops every line from it on. *)
Theorem downloadList_truncates (eof_with_last_bytes : bool)
    (manifest_get : string -> goresult string) (url : string)
    (pre : list string) (long rest : string) :
  Forall (fun l => ~ In "010"%char (list_ascii_of_string l) /\
                   (String.length l + 1 <= MaxScanTokenSize)%nat) pre ->
  ~ In "010"%char (list_ascii_of_string long) ->
  (MaxScanTokenSize <= String.length long)%nat ->
  manifest_get url = GOk (manifest_text LF pre ++ long ++ LF ++ rest)%string ->
  downloadList eof_with_last_bytes manifest_get url =
    GOk (filter (fun line => String.prefix "http" line)
           (map (fun l => string_of_list_ascii (dropCR (list_ascii_of_string l))) pre)).
Proof.
  intros Hpre Hlong Hlen Hget; unfold downloadList, scan_lines; rewrite Hget.
  rewrite !list_ascii_of_string_app; cbn [LF list_ascii_of_string app].
  rewrite split_nl_manifest_app by (eapply Forall_impl; [| exact Hpre]; intros l [H _]; exact H).
  rewrite split_nl_line by exact Hlong.
  rewrite scan_pieces_app.
  - rewrite scan_pieces_cons by apply split_nl_nonempty.
    rewrite length_list_ascii.
    destruct (Nat.leb_spec (String.length long + 1) MaxScanTokenSize); [lia |].
    rewrite app_nil_r, !map_map; reflexivity.
  - apply Forall_map; eapply Forall_impl; [| exact Hpre]; intros l [_ H].
    rewrite length_list_ascii; exact H.
Qed.

Lemma downloadList_truncates_witness :
  downloadList false
    (fun _ => GOk (manifest_text LF ["http://a/f1"]%string ++
                   string_of_list_ascii (repeat "h"%char (64 * 1024)) ++ LF ++
                   manifest_text LF ["http://a/f2"]%string)%string) url_a =
    GOk ["http://a/f1"%string].
Proof.
  apply (downloadList_truncates false _ url_a ["http://a/f1"%string]
           (string_of_list_ascii (repeat "h"%char (64 * 1024)))
           (manifest_text LF ["http://a/f2"]%string)).
  - apply Forall_cons; [split | apply Forall_nil].
    + vm_compute; intros H; intuition discriminate.
    + apply Nat.leb_le; vm_compute; reflexivity.
  - rewrite list_ascii_of_string_of_list_ascii; intros H; apply repeat_spec in H; discriminate.
  - apply Nat.leb_le; vm_compute; reflexivity.
  - reflexivity.
Defined.

Lemma split_nl_no_nl (l : list ascii) : ~ In "010"%char l -> split_nl l = [l].
Proof.
  induction l as [| c l IH]; intros Hl; [reflexivity |]; simpl.
  destruct (Ascii.eqb_spec c "010"%char) as [-> | _]; [exfalso; apply Hl; left; reflexivity |].
  rewrite IH by (intros H; apply Hl; right; exact H); reflexivity.
Qed.

(** A manifest whose last line has no line feed after it: that line is
    still returned, after the others, when it is not empty, contains no
    ['\n'], does not end with ['\r'] and is shorter than 64 KiB. *)
Theorem scan_lines_last_line (eof_with_last_bytes : bool) (ls : list string) (last : string) :
  Forall (fun l => ~ In "010"%char (list_ascii_of_string l) /\
                   String.get (String.length l - 1) l <> Some "013"%char /\
                   (String.length l + 1 <= MaxScanTokenSize)%nat) ls ->
  last <> EmptyString ->
  ~ In "010"%char (list_ascii_of_string last) ->
  String.get (String.length last - 1) last <> Some "013"%char ->
  (String.length last + 1 <= MaxScanTokenSize)%nat ->
  scan_lines eof_with_last_bytes (manifest_text LF ls ++ last) = ls ++ [last].
Proof.
  intros Hls Hne Hnl Hcr Hlen; unfold scan_lines.
  rewrite list_ascii_of_string_app.
  rewrite <- (app_nil_r (list_ascii_of_string last)) at 1.
  rewrite split_nl_manifest_app by (eapply Forall_impl; [| exact Hls]; intros l [H _]; exact H).
  rewrite app_nil_r, split_nl_no_nl by exact Hnl.
  rewrite scan_pieces_app.
  - destruct (list_ascii_of_string last) as [| c r] eqn:Hl.
    + destruct last; [contradiction | discriminate].
    + cbn [scan_pieces]; rewrite <- Hl, length_list_ascii.
      destruct (Nat.leb_spec (String.length last)
                  (if eof_with_last_bytes then MaxScanTokenSize else MaxScanTokenSize - 1));
        [| destruct eof_with_last_bytes; lia].
      rewrite map_app, !map_map, dropCR_no_cr by exact Hcr; cbn [map].
      rewrite string_of_list_ascii_of_string; f_equal.
      clear Hl; induction Hls as [| l ls (_ & Hc & _) Hls IH]; [reflexivity |].
      simpl; rewrite IH, dropCR_no_cr by exact Hc.
      rewrite string_of_list_ascii_of_string; reflexivity.
  - apply Forall_map; eapply Forall_impl; [| exact Hls]; intros l (_ & _ & H).
    rewrite length_list_ascii; exact H.
Qed.

Lemma scan_lines_last_line_witness :
  scan_lines false (manifest_text LF ["http://a/f1"]%string ++ "http://a/f2")%string =
    ["http://a/f1"; "http://a/f2"]%string.
Proof.
  apply (scan_lines_last_line false ["http://a/f1"%string] "http://a/f2").
  - apply Forall_cons; [| apply Forall_nil]; repeat split;
      try (apply Nat.leb_le; vm_compute; reflexivity);
      vm_compute; intros H; intuition discriminate.
  - discriminate.
  - vm_compute; intros H; intuition discriminate.
  - vm_compute; discriminate.
  - apply Nat.leb_le; vm_compute; reflexivity.
Defined.

(** ** strconv.ParseInt and fmt on decimal strings *)

Lemma uint_cutoff_val : uint_cutoff = 1844674407370955162.
Proof. reflexivity. Qed.

Lemma uint_max_val : uint_max = 18446744073709551615.
Proof. reflexivity. Qed.

Lemma digit_val_range (c : ascii) : is_digit c = true -> 0 <= digit_val c <= 9.
Proof.
  unfold is_digit, digit_val; intros H; apply andb_prop in H as [H1 H2].
  apply Z.leb_le in H1; apply Z.leb_le in H2; lia.
Qed.

Lemma dec_acc_ge (s : string) :
  forall m, 0 <= m -> all_digits s = true -> m <= dec_acc m s.
Proof.
  induction s as [| c s IH]; intros m Hm Hd; simpl in *; [lia |].
  apply andb_prop in Hd as [Hc Hs]; pose proof (digit_val_range c Hc).
  specialize (IH (m * 10 + digit_val c) ltac:(lia) Hs); lia.
Qed.

(** The digit loop of [ParseUint] on decimal digits: the value, or a range
    error as soon as it exceeds [2^64 - 1]. *)
Lemma parse_uint_loop_digits (s : string) :
  forall m, 0 <= m <= uint_max -> all_digits s = true ->
  parse_uint_loop s m =
    if dec_acc m s <=? uint_max then GOk (dec_acc m s)
    else GErr (NumError "ParseUint" "" ErrRange).
Proof.
  induction s as [| c s IH]; intros m Hm Hd; simpl in Hd |- *.
  - destruct (Z.leb_spec m uint_max); [reflexivity | lia].
  - apply andb_prop in Hd as [Hc Hs]; pose proof (digit_val_range c Hc).
    rewrite Hc; simpl negb; cbv iota.
    pose proof (dec_acc_ge s (m * 10 + digit_val c) ltac:(lia) Hs).
    rewrite uint_cutoff_val, !uint_max_val; rewrite uint_max_val in Hm.
    destruct (Z.leb_spec 1844674407370955162 m).
    + destruct (Z.leb_spec (dec_acc (m * 10 + digit_val c) s) 18446744073709551615);
        [lia | reflexivity].
    + destruct (Z.ltb_spec 18446744073709551615 (m * 10 + digit_val c)).
      * destruct (Z.leb_spec (dec_acc (m * 10 + digit_val c) s) 18446744073709551615);
          [lia | reflexivity].
      * rewrite <- uint_max_val; apply IH; [rewrite uint_max_val; lia | exact Hs].
Qed.

Lemma ParseUint_digits (ds : string) :
  ds <> EmptyString -> all_digits ds = true ->
  ParseUint ds =
    if dec_acc 0 ds <=? uint_max then GOk (dec_acc 0 ds)
    else GErr (NumError "ParseUint" "" ErrRange).
Proof.
  intros Hne Hd; destruct ds as [| c r]; [contradiction |].
  apply parse_uint_loop_digits; [rewrite uint_max_val; lia | exact Hd].
Qed.

(** [strconv.ParseInt(s, 10, 64)] on a non-empty string of decimal digits,
    unsigned or with a [+] or [-] sign: leading zeros are accepted, the
    value is returned when it is an [int64] (down to [-2^63] for a negative
    one), and a larger magnitude is a range error naming the whole input;
    the value never wraps around. *)
Theorem ParseInt_decimal (ds : string) :
  ds <> EmptyString -> all_digits ds = true ->
  ParseInt ds =
    (if dec_acc 0 ds <=? MaxInt64 then GOk (dec_acc 0 ds)
     else GErr (NumError "ParseInt" ds ErrRange)) /\
  ParseInt ("+" ++ ds) =
    (if dec_acc 0 ds <=? MaxInt64 then GOk (dec_acc 0 ds)
     else GErr (NumError "ParseInt" ("+" ++ ds) ErrRange)) /\
  ParseInt ("-" ++ ds) =
    (if dec_acc 0 ds <=? 2 ^ 63 then GOk (- dec_acc 0 ds)
     else GErr (NumError "ParseInt" ("-" ++ ds) ErrRange)).
Proof.
  intros Hne Hd.
  pose proof (ParseUint_digits ds Hne Hd) as Hu.
  pose proof (dec_acc_ge ds 0 ltac:(lia) Hd) as Hv.
  set (v := dec_acc 0 ds) in *.
  unfold MaxInt64; rewrite uint_max_val in Hu.
  split; [| split].
  - destruct ds as [| c r]; [contradiction |].
    destruct (is_digit_not_sign c) as [Hp Hm]; [exact (proj1 (andb_prop _ _ Hd)) |].
    unfold ParseInt; rewrite Hp, Hm; cbv iota beta; rewrite Hu.
    repeat (match goal with
            | |- context [Z.leb ?a ?b] => destruct (Z.leb_spec a b)
            | |- context [Z.ltb ?a ?b] => destruct (Z.ltb_spec a b)
            end; cbn [negb andb]);
      try reflexivity; lia.
  - unfold ParseInt; cbn [String.append]; rewrite Ascii.eqb_refl; cbv iota beta; rewrite Hu.
    repeat (match goal with
            | |- context [Z.leb ?a ?b] => destruct (Z.leb_spec a b)
            | |- context [Z.ltb ?a ?b] => destruct (Z.ltb_spec a b)
            end; cbn [negb andb]);
      try reflexivity; lia.
  - unfold ParseInt; cbn [String.append].
    replace (Ascii.eqb "-"%char "+"%char) with false by reflexivity.
    rewrite Ascii.eqb_refl; cbv iota beta; rewrite Hu.
    repeat (match goal with
            | |- context [Z.leb ?a ?b] => destruct (Z.leb_spec a b)
            | |- context [Z.ltb ?a ?b] => destruct (Z.ltb_spec a b)
            end; cbn [negb andb]);
      try reflexivity; lia.
Qed.

(** [2^63] with leading zeros: out of range unsigned or with [+], the
    smallest [int64] with [-]. *)
Lemma ParseInt_decimal_witness :
  ParseInt "0009223372036854775808" =
    GErr (NumError "ParseInt" "0009223372036854775808" ErrRange) /\
  ParseInt "+0009223372036854775808" =
    GErr (NumError "ParseInt" "+0009223372036854775808" ErrRange) /\
  ParseInt "-0009223372036854775808" = GOk MinInt64.
Proof.
  destruct (ParseInt_decimal "0009223372036854775808" ltac:(discriminate) eq_refl)
    as (H1 & H2 & H3).
  split; [| split].
  - refine (eq_trans H1 _); vm_compute; reflexivity.
  - refine (eq_trans H2 _); vm_compute; reflexivity.
  - refine (eq_trans H3 _); vm_compute; reflexivity.
Defined.

Lemma string_app_assoc (a b c : string) : ((a ++ b) ++ c = a ++ b ++ c)%string.
Proof. induction a as [| x a IH]; simpl; [reflexivity | rewrite IH; reflexivity]. Qed.

Lemma string_app_nil_r (a : string) : (a ++ "")%string = a.
Proof. induction a as [| x a IH]; simpl; [reflexivity | rewrite IH; reflexivity]. Qed.

Lemma all_digits_app (a b : string) :
  all_digits (a ++ b) = all_digits a && all_digits b.
Proof.
  induction a as [| x a IH]; simpl; [reflexivity | rewrite IH, andb_assoc; reflexivity].
Qed.

Lemma dec_acc_app (a b : string) (m : Z) : dec_acc m (a ++ b) = dec_acc (dec_acc m a) b.
Proof. revert m; induction a as [| x a IH]; intros m; simpl; auto. Qed.

Lemma digit_char_spec (d : Z) :
  0 <= d < 10 -> is_digit (digit_char d) = true /\ digit_val (digit_char d) = d.
Proof.
  intros Hd; unfold is_digit, digit_val, digit_char.
  rewrite nat_ascii_embedding by lia.
  split; [apply andb_true_intro; split; apply Z.leb_le |]; lia.
Qed.

(** [fmt_digits] writes the decimal digits of its argument in front of the
    accumulator. *)
Lemma fmt_digits_spec (f : nat) :
  forall n acc, 0 <= n < 10 ^ Z.of_nat (S f) ->
  exists ds, fmt_digits (S f) n acc = (ds ++ acc)%string /\ ds <> EmptyString /\
             all_digits ds = true /\ dec_acc 0 ds = n.
Proof.
  induction f as [| f IH]; intros n acc Hn; cbn [fmt_digits];
    pose proof (digit_char_spec (n mod 10) ltac:(apply Z.mod_pos_bound; lia)) as [Hd Hv].
  - destruct (Z.ltb_spec n 10) as [Hlt | Hge]; [| simpl in Hn; lia].
    exists (String (digit_char (n mod 10)) ""); cbn [all_digits dec_acc String.append].
    rewrite Hd, Hv; cbn [andb].
    split; [reflexivity | split; [discriminate | split; [reflexivity |]]].
    apply Z.mod_small; lia.
  - destruct (Z.ltb_spec n 10) as [Hlt | Hge].
    + exists (String (digit_char (n mod 10)) ""); cbn [all_digits dec_acc String.append].
    rewrite Hd, Hv; cbn [andb].
      split; [reflexivity | split; [discriminate | split; [reflexivity |]]].
      apply Z.mod_small; lia.
    + destruct (IH (n / 10) (String (digit_char (n mod 10)) acc)) as (ds & Heq & Hne & Hds & Hval).
      { split; [apply Z.div_pos; lia |].
        apply Z.div_lt_upper_bound; [lia |].
        rewrite Nat2Z.inj_succ, Z.pow_succ_r in Hn by lia; lia. }
      exists (ds ++ String (digit_char (n mod 10)) "")%string.
      rewrite string_app_assoc; split; [exact Heq |].
      split; [destruct ds; [contradiction | discriminate] |].
      rewrite all_digits_app, dec_acc_app, Hds, Hval; cbn [all_digits dec_acc].
      rewrite Hd, Hv; cbn [andb].
      split; [reflexivity |].
      pose proof (Z.div_mod n 10); lia.
Qed.

(** The numbers [fmt] prints, as in the [Range] header, read back: for
    every [int64] value [z], [strconv.ParseInt(fmt.Sprintf("%v", z), 10, 64)]
    returns [z] without error. *)
Theorem format_int_ParseInt (z : Z) : in_int64 z -> ParseInt (format_int z) = GOk z.
Proof.
  unfold in_int64, MinInt64, MaxInt64; intros Hz; unfold format_int.
  destruct (Z.ltb_spec z 0) as [Hneg | Hpos].
  - destruct (fmt_digits_spec 19 (- z) "") as (ds & Heq & Hne & Hd & Hv);
      [split; [lia |]; change (10 ^ Z.of_nat 20) with 100000000000000000000; lia |].
    rewrite Heq, string_app_nil_r.
    unfold ParseInt.
    replace (Ascii.eqb "-"%char "+"%char) with false by reflexivity.
    rewrite Ascii.eqb_refl; cbv iota beta.
    rewrite (ParseUint_digits ds Hne Hd), Hv, uint_max_val.
    repeat (match goal with
            | |- context [Z.leb ?a ?b] => destruct (Z.leb_spec a b)
            | |- context [Z.ltb ?a ?b] => destruct (Z.ltb_spec a b)
            end; cbn [negb andb]);
      try lia; try reflexivity; f_equal; lia.
  - destruct (fmt_digits_spec 19 z "") as (ds & Heq & Hne & Hd & Hv);
      [split; [lia |]; change (10 ^ Z.of_nat 20) with 100000000000000000000; lia |].
    rewrite Heq, string_app_nil_r.
    destruct ds as [| c r]; [contradiction |].
    destruct (is_digit_not_sign c) as [Hp Hm]; [exact (proj1 (andb_prop _ _ Hd)) |].
    unfold ParseInt; rewrite Hp, Hm; cbv iota beta.
    rewrite (ParseUint_digits (String c r) Hne Hd), Hv, uint_max_val.
    repeat (match goal with
            | |- context [Z.leb ?a ?b] => destruct (Z.leb_spec a b)
            | |- context [Z.ltb ?a ?b] => destruct (Z.ltb_spec a b)
            end; cbn [negb andb]);
      try lia; try reflexivity; f_equal; lia.
Qed.

Lemma format_int_ParseInt_witness :
  ParseInt (format_int MinInt64) = GOk MinInt64 /\
  ParseInt (format_int MaxInt64) = GOk MaxInt64.
Proof.
  split; apply format_int_ParseInt; unfold in_int64; vm_compute; split; discriminate.
Defined.

(** ** A download in which every request succeeds *)

(** With at least one attempt per chunk, a sink that accepts every write
    and range requests that all succeed, the loop of [downloadAndWrite]
    from a reached offset completes once the fuel exceeds the chunks left:
    one GET request per chunk, with the chunk's end-inclusive range, and one
    write per chunk. *)
Lemma dw_loop_clean (env : Env) (url : string) (n b : Z) :
  1 <= MaxRetry env -> 0 <= n -> 0 < b -> n + b <= 2 ^ 63 ->
  (forall i, write_err env i = None) ->
  url_err env url = None ->
  (forall k f l, 0 <= f <= l -> l < n ->
     exists resp, client_do env k url (range_str f l) = GOk resp /\
                  get_body_err resp = None) ->
  forall fuel o s, reached n b o -> (n - o + b - 1) / b < Z.of_nat fuel ->
  exists rs s', chunk_ranges fuel n b o = Some rs /\
    dw_loop env fuel url n b o s = (Ret tt, s') /\
    gets s' = gets s ++ map (fun p => (url, range_str (fst p) (snd p - 1))) rs /\
    List.length (writes s') = (List.length (writes s) + List.length rs)%nat.
Proof.
  intros Hm Hn Hb Hnb Hw Hurl Hget fuel; induction fuel as [| fuel IH]; intros o s Ho Hf;
    pose proof (reached_bounds n b o Hn Hb Hnb Ho) as Hob.
  - assert (0 <= (n - o + b - 1) / b) by (apply Z.div_pos; lia); simpl in Hf; lia.
  - cbn [dw_loop chunk_ranges].
    destruct (Z.ltb_spec o n) as [Hlt | Hge].
    + pose proof (next_offset_to_min n b o ltac:(lia) Hb Hnb) as Ht.
      set (t := next_offset_to n b o) in *.
      rewrite (i64_id (t - 1)) by (unfold in_int64, MinInt64, MaxInt64; lia).
      destruct (Hget (List.length (gets s) + 0)%nat o (t - 1)) as [resp [Hr Hbe]];
        [lia | lia |].
      unfold bind, downloadChunkWithRetry.
      rewrite (retry_loop_succeeds_after env url o (t - 1) Hurl 0 _ ([], None) s);
        [| lia | intros i Hi; lia | unfold chunk_outcome; rewrite Hr, Hbe; reflexivity].
      unfold chunk_outcome; rewrite Hr, Hbe; cbn [fst snd repeat].
      unfold write_out; rewrite Hw.
      destruct (IH t (mkSt (gets s ++ [(url, range_str o (t - 1))])
                           (writes s ++ [get_body resp])))
        as (rs & s' & Hrs & Hrun & Hg & Hwl).
      * exact (reached_next n b o Ho Hlt).
      * rewrite Ht; pose proof (ceil_step n b o ltac:(lia) Hb).
        rewrite Nat2Z.inj_succ in Hf; lia.
      * exists ((o, t) :: rs), s'; rewrite Hrs; cbn [option_map].
        split; [reflexivity | split; [exact Hrun | split]].
        -- rewrite Hg; cbn [gets map fst snd]; rewrite <- app_assoc; reflexivity.
        -- rewrite Hwl; cbn [writes]; rewrite length_app; cbn [List.length]; lia.
    + exists [], s; split; [reflexivity | split; [reflexivity | split]].
      * symmetry; apply app_nil_r.
      * simpl; lia.
Qed.

(** The progress total [numChunks] that [downloadAndWrite] prints is the
    number of chunks its loop visits: [contentLen / batchSize], plus one
    when the division leaves a remainder, is the length of the chunk plan,
    for a size [>= 0] and a batch [> 0] whose sum does not overflow. *)
Theorem num_chunks_plan_length (n b : Z) :
  0 <= n -> 0 < b -> n + b <= 2 ^ 63 ->
  num_chunks n b = Some (Z.of_nat (List.length (chunk_plan n b))).
Proof.
  intros Hn Hb Hnb.
  destruct (chunk_ranges_complete n b Hb Hnb (S (Z.to_nat ((n + b - 1) / b))) 0)
    as [rs Hrs]; [lia | |].
  { assert (0 <= (n + b - 1) / b) by (apply Z.div_pos; lia).
    replace (n - 0 + b - 1) with (n + b - 1) by ring; lia. }
  destruct (chunk_ranges_sound n b Hb Hnb _ 0 rs ltac:(lia) Hrs) as (_ & _ & _ & Hlen).
  unfold chunk_plan; rewrite Hrs, Hlen; clear Hrs Hlen.
  replace (n - 0 + b - 1) with (n + b - 1) by ring.
  unfold num_chunks; destruct (Z.eqb_spec b 0); [lia |].
  rewrite Z.quot_div_nonneg, Z.rem_mod_nonneg by lia.
  pose proof (Z.div_mod n b ltac:(lia)) as Hdm.
  pose proof (Z.mod_pos_bound n b Hb) as Hr.
  assert (Hq : 0 <= n / b <= n) by (split; [apply Z.div_pos | apply Z.div_le_upper_bound]; nia).
  rewrite (i64_id (n / b)) by (unfold in_int64, MinInt64, MaxInt64; lia).
  destruct (Z.gtb_spec (n mod b) 0) as [Hpos | Hzero].
  - rewrite (i64_id (n / b + 1)) by (unfold in_int64, MinInt64, MaxInt64; lia).
    f_equal; apply (Z.div_unique_pos (n + b - 1) b (n / b + 1) (n mod b - 1)); lia.
  - f_equal; apply (Z.div_unique_pos (n + b - 1) b (n / b) (b - 1)); lia.
Qed.

Lemma num_chunks_plan_length_witness :
  num_chunks 10 4 = Some 3 /\ chunk_plan 10 4 = [(0, 4); (4, 8); (8, 10)].
Proof.
  split; [| vm_compute; reflexivity].
  rewrite (num_chunks_plan_length 10 4) by (vm_compute; congruence || discriminate || lia).
  vm_compute; reflexivity.
Defined.

(** A download in which every request succeeds completes (used by the
    theorems on [main] as well). *)
Lemma downloadAndWrite_completes (env : Env) (fuel : nat) (url : string) (n : Z) (s : St) :
  1 <= MaxRetry env -> 0 < batch_size env ->
  (forall i, write_err env i = None) ->
  url_err env url = None ->
  checkHeaders env url = GOk n -> 0 <= n -> n + batch_size env <= 2 ^ 63 ->
  (forall k f l, 0 <= f <= l -> l < n ->
     exists resp, client_do env k url (range_str f l) = GOk resp /\
                  get_body_err resp = None) ->
  (n + batch_size env - 1) / batch_size env < Z.of_nat fuel ->
  exists s', downloadAndWrite env fuel url s = (Ret tt, s') /\
    gets s' = gets s ++ map (fun p => (url, range_str (fst p) (snd p - 1)))
                            (chunk_plan n (batch_size env)) /\
    List.length (writes s') =
      (List.length (writes s) + List.length (chunk_plan n (batch_size env)))%nat.
Proof.
  intros Hm Hb Hw Hurl Hc Hn Hnb Hget Hf.
  destruct (dw_loop_clean env url n (batch_size env) Hm Hn Hb Hnb Hw Hurl Hget fuel 0 s
              (reached_start _ _) ltac:(replace (n - 0) with n by ring; exact Hf))
    as (rs & s' & Hrs & Hrun & Hg & Hwl).
  rewrite <- (chunk_ranges_plan n (batch_size env) fuel rs Hn Hb Hnb Hrs).
  exists s'; split; [| split; [exact Hg | exact Hwl]].
  unfold downloadAndWrite; rewrite Hc.
  unfold num_chunks; destruct (Z.eqb_spec (batch_size env) 0); [lia | exact Hrun].
Qed.

(** A resource whose probe succeeds and every range request of which
    succeeds is downloaded completely, with at least one attempt per chunk,
    a non-zero batch size, no [int64] overflow and enough fuel for its
    chunks: [downloadAndWrite] returns [nil] after exactly one GET request
    per chunk of the plan, in ascending order, each with the [Range] header
    [bytes=<from>-<to-1>], and exactly one write per chunk. *)
Theorem downloadAndWrite_clean (env : Env) (fuel : nat) (url : string) (n : Z) (s : St) :
  1 <= MaxRetry env -> 0 < batch_size env ->
  (forall i, write_err env i = None) ->
  url_err env url = None ->
  checkHeaders env url = GOk n -> 0 <= n -> n + batch_size env <= 2 ^ 63 ->
  (forall k f l, 0 <= f <= l -> l < n ->
     exists resp, client_do env k url (range_str f l) = GOk resp /\
                  get_body_err resp = None) ->
  (n + batch_size env - 1) / batch_size env < Z.of_nat fuel ->
  exists s', downloadAndWrite env fuel url s = (Ret tt, s') /\
    gets s' = gets s ++ map (fun p => (url, range_str (fst p) (snd p - 1)))
                            (chunk_plan n (batch_size env)) /\
    List.length (writes s') =
      (List.length (writes s) + List.length (chunk_plan n (batch_size env)))%nat.
Proof. exact (downloadAndWrite_completes env fuel url n s). Qed.

Lemma downloadAndWrite_clean_witness :
  exists s', downloadAndWrite env_two 3 url_a st0 = (Ret tt, s') /\
    gets s' = [(url_a, "bytes=0-1048575"%string); (url_a, "bytes=1048576-1499999"%string)] /\
    List.length (writes s') = 2%nat.
Proof.
  assert (Hget : forall k f l, 0 <= f <= l -> l < 1500000 ->
            exists resp, client_do env_two k url_a (range_str f l) = GOk resp /\
                         get_body_err resp = None)
    by (intros k f l _ _; exists (mkGetResp 206 [Byte.x41] None); split; reflexivity).
  destruct (downloadAndWrite_clean env_two 3 url_a 1500000 st0
              ltac:(vm_compute; congruence) ltac:(vm_compute; reflexivity)
              (fun i => eq_refl) eq_refl ltac:(vm_compute; reflexivity) ltac:(lia)
              ltac:(vm_compute; congruence) Hget ltac:(vm_compute; reflexivity))
    as (s' & Hrun & Hg & Hwl).
  exists s'; split; [exact Hrun |]; split.
  - rewrite Hg; vm_compute; reflexivity.
  - rewrite Hwl; vm_compute; reflexivity.
Defined.

(** A server that fails every range request after a successful probe: with
    at least one attempt per chunk, a non-zero batch size and no overflow,
    [downloadAndWrite] on a non-empty resource makes exactly [MaxRetry]
    requests, all for the first chunk [bytes=0-<min(batch, size) - 1>],
    writes nothing and returns the error of the last attempt. *)
Theorem downloadAndWrite_all_fail (env : Env) (fuel : nat) (url : string) (n : Z) (s : St) :
  1 <= MaxRetry env -> 0 < batch_size env ->
  url_err env url = None ->
  checkHeaders env url = GOk n -> 0 < n -> n + batch_size env <= 2 ^ 63 ->
  (1 <= fuel)%nat ->
  (forall k hdr, snd (chunk_outcome env k url hdr) <> None) ->
  exists e,
    snd (chunk_outcome env (List.length (gets s) + Z.to_nat (MaxRetry env) - 1) url
           (range_str 0 (Z.min (batch_size env) n - 1))) = Some e /\
    downloadAndWrite env fuel url s =
      (Err e, mkSt (gets s ++ repeat (url, range_str 0 (Z.min (batch_size env) n - 1))
                                     (Z.to_nat (MaxRetry env)))
                   (writes s)).
Proof.
  intros Hm Hb Hurl Hc Hn Hnb Hf Hfail.
  unfold downloadAndWrite; rewrite Hc.
  unfold num_chunks; destruct (Z.eqb_spec (batch_size env) 0); [lia |].
  destruct fuel as [| fuel]; [lia |]; cbn [dw_loop].
  destruct (Z.ltb_spec 0 n); [| lia].
  rewrite (next_offset_to_min n (batch_size env) 0) by lia.
  rewrite Z.add_0_l, (i64_id (Z.min (batch_size env) n - 1))
    by (unfold in_int64, MinInt64, MaxInt64; lia).
  unfold bind, downloadChunkWithRetry.
  destruct (Z.to_nat (MaxRetry env)) as [| k] eqn:Hk; [lia |].
  rewrite retry_loop_all_fail by (exact Hurl || (intros j; apply Hfail)).
  cbv beta iota.
  replace (List.length (gets s) + S k - 1)%nat with (List.length (gets s) + k)%nat by lia.
  match goal with
  | |- context [snd (chunk_outcome ?a ?b ?c ?d)] =>
      pose proof (Hfail b d) as Hnone; destruct (snd (chunk_outcome a b c d)) as [e |] eqn:He
  end.
  - exists e; split; reflexivity.
  - exfalso; exact (Hnone eq_refl).
Qed.

Lemma downloadAndWrite_all_fail_witness :
  downloadAndWrite env_down 5 url_a st0 =
    (Err (NetError 2), mkSt (repeat (url_a, "bytes=0-9"%string) 3) []).
Proof.
  destruct (downloadAndWrite_all_fail env_down 5 url_a 10 st0
              ltac:(vm_compute; congruence) ltac:(vm_compute; reflexivity) eq_refl
              ltac:(vm_compute; reflexivity) ltac:(lia) ltac:(vm_compute; congruence)
              ltac:(lia) ltac:(intros k hdr; vm_compute; discriminate))
    as (e & He & Hrun).
  rewrite Hrun; vm_compute in He; injection He as <-; vm_compute; reflexivity.
Defined.

(** ** [main] *)

(** [flag.Arg(flag.NArg() - 1)] is the last argument left after the flags. *)
Lemma flag_Arg_last (args : list string) (u : string) :
  flag_Arg (args ++ [u]) (Z.of_nat (List.length (args ++ [u])) - 1) = u.
Proof.
  unfold flag_Arg; rewrite length_app; cbn [List.length].
  destruct (Z.ltb_spec (Z.of_nat (List.length args + 1) - 1) 0); [lia |].
  destruct (Z.leb_spec (Z.of_nat (List.length args + 1)) (Z.of_nat (List.length args + 1) - 1));
    [lia |]; cbn [orb].
  replace (Z.to_nat (Z.of_nat (List.length args + 1) - 1)) with (List.length args) by lia.
  rewrite app_nth2 by lia; rewrite Nat.sub_diag; reflexivity.
Qed.

Lemma main_loop_app (env : Env) (fuel : nat) (pre rest : list string) (s : St) :
  main_loop env fuel (pre ++ rest) s =
    match main_loop env fuel pre s with
    | (Ret _, s1) => main_loop env fuel rest s1
    | r => r
    end.
Proof.
  revert s; induction pre as [| u pre IH]; intros s; [reflexivity |].
  cbn [app main_loop]; unfold bind.
  destruct (downloadAndWrite env fuel u s) as [r1 s1].
  destruct r1 as [[] | e | |]; [apply IH | reflexivity ..].
Qed.

(** [log.Fatal] on the first resource that fails: when the resources before
    it in the resolved list have been downloaded and its download returns an
    error, [main] exits with that error in the state that download left, so
    no request is made for any later resource and the bytes already written
    stay written. *)
Theorem main_stops_at_failure (env : Env) (eof_with_last_bytes : bool)
    (manifest_get : string -> goresult string) (fuel nOsArgs : nat)
    (args : list string) (murl : string) (pre : list string) (u : string)
    (post : list string) (e : GoError) (s s1 s2 : St) :
  (2 <= nOsArgs)%nat ->
  downloadList eof_with_last_bytes manifest_get murl = GOk (pre ++ u :: post) ->
  main_loop env fuel pre s = (Ret tt, s1) ->
  downloadAndWrite env fuel u s1 = (Err e, s2) ->
  main env eof_with_last_bytes manifest_get fuel nOsArgs (args ++ [murl]) s = (ExitFatal e, s2).
Proof.
  intros Hargs Hlist Hpre Hu; unfold main.
  destruct (Nat.ltb_spec nOsArgs 2); [lia |].
  rewrite flag_Arg_last, Hlist, main_loop_app, Hpre; cbn [main_loop]; unfold bind.
  rewrite Hu; reflexivity.
Qed.

Lemma main_stops_at_failure_witness :
  main env_mixed false
    (fun _ => GOk (manifest_text LF [url_a; url_b; "http://a/f3"%string]))
    5 3 ["list.txt"%string] (mkSt [] [[Byte.x42]]) =
    (ExitFatal ErrAcceptRanges,
     mkSt [(url_a, "bytes=0-0"%string)] [[Byte.x42]; [Byte.x41]]).
Proof.
  apply (main_stops_at_failure env_mixed false _ 5 3 [] "list.txt" [url_a] url_b
           ["http://a/f3"%string] ErrAcceptRanges (mkSt [] [[Byte.x42]])
           (mkSt [(url_a, "bytes=0-0"%string)] [[Byte.x42]; [Byte.x41]])
           (mkSt [(url_a, "bytes=0-0"%string)] [[Byte.x42]; [Byte.x41]])).
  - lia.
  - vm_compute; reflexivity.
  - vm_compute; reflexivity.
  - vm_compute; reflexivity.
Defined.

(** A run of [gocat] on a manifest URL given as the last argument, where
    the manifest lists its lines with line feeds and every resource it
    names with an ["http"] prefix answers its probe with its size and each
    range request with exactly the requested bytes (with at least one
    attempt per chunk, a non-zero batch size, no [int64] overflow and
    enough fuel): [main] prints ["COMPLETED!"], and the bytes written to
    the standard output are the bodies of those resources, in the
    manifest's order. *)
Theorem main_writes_manifest (env : Env) (eof_with_last_bytes : bool)
    (manifest_get : string -> goresult string) (fuel nOsArgs : nat)
    (args : list string) (murl : string) (ls : list string)
    (body : string -> list Byte.byte) (s : St) :
  (2 <= nOsArgs)%nat ->
  manifest_get murl = GOk (manifest_text LF ls) ->
  Forall (fun l => ~ In "010"%char (list_ascii_of_string l) /\
                   String.get (String.length l - 1) l <> Some "013"%char /\
                   (String.length l + 1 <= MaxScanTokenSize)%nat) ls ->
  1 <= MaxRetry env -> 0 < batch_size env ->
  (forall i, write_err env i = None) ->
  (forall url, In url (filter (fun line => String.prefix "http" line) ls) ->
     url_err env url = None /\
     checkHeaders env url = GOk (Z.of_nat (List.length (body url))) /\
     Z.of_nat (List.length (body url)) + batch_size env <= 2 ^ 63 /\
     (Z.of_nat (List.length (body url)) + batch_size env - 1) / batch_size env
       < Z.of_nat fuel /\
     (forall k f l, 0 <= f <= l -> l < Z.of_nat (List.length (body url)) ->
        exists st, client_do env k url (range_str f l) =
                   GOk (mkGetResp st (slice (body url) f (l + 1)) None))) ->
  exists s', main env eof_with_last_bytes manifest_get fuel nOsArgs (args ++ [murl]) s =
               (ExitCompleted, s') /\
    List.concat (writes s') =
      List.concat (writes s) ++
      List.concat (map body (filter (fun line => String.prefix "http" line) ls)).
Proof.
  intros Hargs Hget Hls Hm Hb Hw Hfiles.
  set (files := filter (fun line => String.prefix "http" line) ls) in *.
  assert (Hlist : downloadList eof_with_last_bytes manifest_get murl = GOk files)
    by (unfold downloadList; rewrite Hget, scan_manifest_lf by exact Hls; reflexivity).
  assert (Hrun : forall s0, exists s', main_loop env fuel files s0 = (Ret tt, s')).
  { clearbody files; clear Hlist; induction files as [| u rest IH]; intros s0.
    - exists s0; reflexivity.
    - destruct (Hfiles u (or_introl eq_refl)) as (Hurl & Hc & Hnb & Hf & Hr).
      destruct (downloadAndWrite_completes env fuel u (Z.of_nat (List.length (body u))) s0
                  Hm Hb Hw Hurl Hc ltac:(lia) Hnb) as (s1 & Hd & _);
        [intros k f l Hfl Hl; destruct (Hr k f l Hfl Hl) as [st Hst];
         exists (mkGetResp st (slice (body u) f (l + 1)) None); split; [exact Hst | reflexivity]
        | exact Hf |].
      destruct (IH (fun v Hv => Hfiles v (or_intror Hv)) s1) as [s' Hs'].
      exists s'; cbn [main_loop]; unfold bind; rewrite Hd; exact Hs'. }
  destruct (Hrun s) as [s' Hs'].
  exists s'; split.
  - unfold main; destruct (Nat.ltb_spec nOsArgs 2); [lia |].
    rewrite flag_Arg_last, Hlist, Hs'; reflexivity.
  - destruct (download_writes_bodies env files body fuel s s' Hm Hb Hw) as [Hws Hcat];
      [intros url Hu; destruct (Hfiles url Hu) as (? & ? & ? & _ & ?); auto | exact Hs' |].
    rewrite Hws, concat_app, Hcat; reflexivity.
Qed.

Lemma main_writes_manifest_witness :
  exists s', main env_one_byte false
               (fun _ => GOk (manifest_text LF ["http://a/f1"; "# skipped"; "http://a/f2"]%string))
               5 3 ["list.txt"%string] st0 = (ExitCompleted, s') /\
    List.concat (writes s') = [] ++ [Byte.x41; Byte.x41].
Proof.
  apply (main_writes_manifest env_one_byte false _ 5 3 [] "list.txt"
           ["http://a/f1"; "# skipped"; "http://a/f2"]%string (fun _ => [Byte.x41]) st0).
  - lia.
  - reflexivity.
  - repeat apply Forall_cons; try apply Forall_nil; repeat split;
      try (apply Nat.leb_le; vm_compute; reflexivity);
      vm_compute; intros H; intuition discriminate.
  - vm_compute; congruence.
  - vm_compute; reflexivity.
  - intros i; reflexivity.
  - intros url Hu; vm_compute in Hu; destruct Hu as [<- | [<- | []]];
      (split; [reflexivity | split; [vm_compute; reflexivity | split; [vm_compute; congruence |
       split; [vm_compute; reflexivity |]]]]);
      intros k f l Hfl Hl; assert (f = 0 /\ l = 0) as [-> ->] by (simpl in Hl; lia);
      exists 206; vm_compute; reflexivity.
Defined.
